(** * DarkModeProvider: color-scheme resolution, persistence and OS watcher

    A shallow embedding of [src/DarkModeProvider.tsx].  The component talks to
    three things outside itself: the global [localStorage], the global
    [window] with its [matchMedia], and its own React state cell.  They are
    gathered in one record, [World], and the code is written as functions on
    it: total state transformers where the source cannot throw, and a small
    state-and-exception monad where it can.

    The development has two layers.  The first takes a host whose two
    globals can be read, each holding an object or a falsy value; there the
    only exception is the [TypeError] of calling [window.matchMedia] on a
    window that has none.  The second, module [Host], makes every read of a
    global explicit, so that it covers hosts where such a read throws, and is
    shown to agree with the first wherever the reads succeed. *)

From stdpp Require Import gmap strings list fin_maps.
From Stdlib Require Import DecimalString.

Open Scope string_scope.
Open Scope list_scope.

(** ** Data model *)

(** [type DarkModeValues = 'dark' | 'light'] *)
Inductive DarkModeValues := Dark | Light.

#[global] Instance DarkModeValues_eq_dec : EqDecision DarkModeValues.
Proof. solve_decision. Defined.

(** The string a [DarkModeValues] is at run time. *)
Definition scheme_string (v : DarkModeValues) : string :=
  match v with Dark => "dark" | Light => "light" end.

(** [export const colorSchemes = { dark, light, noPreference }] *)
Module colorSchemes.
Definition dark : DarkModeValues := Dark.
Definition light : DarkModeValues := Light.
Definition noPreference : string := "no-preference".
End colorSchemes.

(** The merged configuration, each field as the code uses it (see
    [flag_of] and [key_of] below), and [defaultConfig]. *)
Record Config := {
  localStorageKey : string;
  listenWindowEvents : bool;
  useLocalStorage : bool
}.

Definition defaultConfig : Config :=
  {| localStorageKey := "__userColorScheme";
     listenWindowEvents := true;
     useLocalStorage := false |}.

(** The value of a property that is present in an object: [undefined], or
    a value of the declared type. *)
Inductive Supplied (A : Type) :=
| Undefined
| Value (a : A).
Arguments Undefined {A}.
Arguments Value {A} a.

(** The [config] prop: every field is optional. [None]: the object has no
    such property; [Some Undefined]: it has one, holding [undefined]. *)
Record ConfigProp := {
  cfg_localStorageKey : option (Supplied string);
  cfg_listenWindowEvents : option (Supplied bool);
  cfg_useLocalStorage : option (Supplied bool)
}.

(** How the code uses a merged field: a flag only as a condition, where
    [undefined] is falsy; the key only as the argument of [getItem] and
    [setItem], which convert [undefined] to the string ["undefined"]. *)
Definition flag_of (x : Supplied bool) : bool :=
  match x with Undefined => false | Value b => b end.

Definition key_of (x : Supplied string) : string :=
  match x with Undefined => "undefined" | Value s => s end.

Definition emptyConfigProp : ConfigProp :=
  {| cfg_localStorageKey := None;
     cfg_listenWindowEvents := None;
     cfg_useLocalStorage := None |}.

(** [{ ...defaultConfig, ...config }]: a property present in [config]
    wins, also when it holds [undefined]; only a property that is not there
    leaves the default in place. *)
Definition merge_config (config : ConfigProp) : Config :=
  {| localStorageKey :=
       default (localStorageKey defaultConfig)
               (key_of <$> cfg_localStorageKey config);
     listenWindowEvents :=
       default (listenWindowEvents defaultConfig)
               (flag_of <$> cfg_listenWindowEvents config);
     useLocalStorage :=
       default (useLocalStorage defaultConfig)
               (flag_of <$> cfg_useLocalStorage config) |}.

(** What one provider instance closes over after destructuring its props:
    [defaultValue = colorSchemes.light], [config = {}]. *)
Record Provider := {
  defaultValue : DarkModeValues;
  config : Config
}.

Definition DarkModeProvider_props
    (defaultValueProp : option DarkModeValues)
    (configProp : option ConfigProp) : Provider :=
  {| defaultValue := default colorSchemes.light defaultValueProp;
     config := merge_config (default emptyConfigProp configProp) |}.

(** *** Closures

    [useCallback] hands out the same function as long as its dependency list
    is unchanged, so a memoised callback is identified by the values it
    closes over.  [removeEventListener] compares functions by identity; here
    that is equality of these values. *)

Inductive Handler :=
| handleSetDarkColorScheme (useLS : bool) (key : string)
| handleSetLightColorScheme (useLS : bool) (key : string)
| handleSetDefaultColorScheme (dflt : DarkModeValues) (useLS : bool) (key : string).

#[global] Instance Handler_eq_dec : EqDecision Handler.
Proof. solve_decision. Defined.

(** The second component of the context value: either the setter of the
    context's default value, [() => null], or a provider's
    [handleChangeColorScheme]. *)
Inductive Setter :=
| setter_null
| setter_handleChangeColorScheme (useLS : bool) (key : string).

#[global] Instance Setter_eq_dec : EqDecision Setter.
Proof. solve_decision. Defined.

(** *** The host *)

(** What [window.matchMedia] answers.  [mq_media q] is the [media] property
    of the list built from query [q] (["not all"] when the query is not
    understood), [mq_matches q] its current [matches].  In a browser every
    call of [matchMedia] builds a new [MediaQueryList] object
    ([mq_interned = false]); a host that keeps one object per query string,
    as a channel-style test double does, has [mq_interned = true]. *)
Record MatchMedia := {
  mq_media : string -> string;
  mq_matches : string -> bool;
  mq_interned : bool
}.

(** The global [window]; its [matchMedia] property may be undefined. *)
Record Window := { matchMedia : option MatchMedia }.

(** A [MediaQueryList] object: the query it was built from and the
    listeners of its [change] event, in registration order. *)
Record MediaQueryList := {
  mql_query : string;
  mql_listeners : list Handler
}.

(** Calls made by the update path, in the order they are made. *)
Inductive Call :=
| SetColorScheme (v : DarkModeValues)
| SetItem (key value : string).

#[global] Instance Call_eq_dec : EqDecision Call.
Proof. solve_decision. Defined.

Record World := {
  (** what the global [localStorage] holds; [None] when it is falsy *)
  localStorage : option (gmap string string);
  (** what the global [window] holds; [None] when it is falsy *)
  window : option Window;
  (** every [MediaQueryList] object built so far, oldest first *)
  mqls : list MediaQueryList;
  (** the provider's state cell, [useState<DarkModeValues>]: the initial
      value, then the value last handed to [setColorScheme]; when React
      re-renders after that call is not modelled *)
  colorScheme : DarkModeValues;
  (** log of the update path's calls, oldest first *)
  calls : list Call
}.

Definition set_localStorage (s : option (gmap string string)) (w : World) : World :=
  {| localStorage := s; window := window w; mqls := mqls w;
     colorScheme := colorScheme w; calls := calls w |}.

Definition set_mqls (l : list MediaQueryList) (w : World) : World :=
  {| localStorage := localStorage w; window := window w; mqls := l;
     colorScheme := colorScheme w; calls := calls w |}.

Definition set_colorScheme (v : DarkModeValues) (w : World) : World :=
  {| localStorage := localStorage w; window := window w; mqls := mqls w;
     colorScheme := v; calls := calls w |}.

Definition log_call (c : Call) (w : World) : World :=
  {| localStorage := localStorage w; window := window w; mqls := mqls w;
     colorScheme := colorScheme w; calls := calls w ++ [c] |}.

(** ** A state monad with exceptions *)

(** The exceptions the code can meet: calling something that is not a
    function, reading a name that is not declared, reading a global whose
    getter refuses. *)
Inductive JsError := TypeError | ReferenceError | SecurityError.

Inductive Outcome (A : Type) :=
| Returned (a : A) (w : World)
| Thrown (e : JsError) (w : World).
Arguments Returned {A} a w.
Arguments Thrown {A} e w.

Definition M (A : Type) : Type := World -> Outcome A.

#[global] Instance M_ret : MRet M := fun A a w => Returned a w.

#[global] Instance M_bind : MBind M := fun A B k m w =>
  match m w with
  | Returned a w' => k a w'
  | Thrown e w' => Thrown e w'
  end.

(** The world an outcome ends in, and the value it returned, if any. *)
Definition world_of {A} (o : Outcome A) : World :=
  match o with Returned _ w => w | Thrown _ w => w end.

Definition value_of {A} (o : Outcome A) : option A :=
  match o with Returned a _ => Some a | Thrown _ _ => None end.

(** ** [localStorage] *)

(** [getItem] answers [null] for a missing key; [x || ''] turns [null] and
    the empty string into the empty string. *)
Definition getItem (store : gmap string string) (key : string) : option string :=
  store !! key.

Definition or_empty (x : option string) : string := default "" x.

Definition setItem (key value : string) (store : gmap string string)
  : gmap string string := <[key := value]> store.

(** ** [window.matchMedia] *)

(** A reference to a list object: its position in the heap. *)
Abbreviation MqlRef := nat.

Definition the_matchMedia (w : World) : option MatchMedia :=
  match window w with
  | Some win => matchMedia win
  | None => None
  end.

Definition new_mql (q : string) : MediaQueryList :=
  {| mql_query := q; mql_listeners := [] |}.

(** Index of the oldest object built from query [q]. *)
Definition find_mql (q : string) (l : list MediaQueryList) : option MqlRef :=
  fst <$> list_find (fun o => mql_query o = q) l.

(** [window.matchMedia(q)]: a [TypeError] when there is nothing to call;
    otherwise a reference to a list object, a new one unless the host interns
    them and has one for [q] already. *)
Definition window_matchMedia (q : string) : M MqlRef := fun w =>
  match the_matchMedia w with
  | None => Thrown TypeError w
  | Some mm =>
      match (if mq_interned mm then find_mql q (mqls w) else None) with
      | Some r => Returned r w
      | None => Returned (length (mqls w)) (set_mqls (mqls w ++ [new_mql q]) w)
      end
  end.

(** The [matches] and [media] properties of a list object. *)
Definition read_matches (r : MqlRef) : M bool := fun w =>
  match the_matchMedia w, mqls w !! r with
  | Some mm, Some o => Returned (mq_matches mm (mql_query o)) w
  | _, _ => Returned false w
  end.

Definition read_media (r : MqlRef) : M string := fun w =>
  match the_matchMedia w, mqls w !! r with
  | Some mm, Some o => Returned (mq_media mm (mql_query o)) w
  | _, _ => Returned "" w
  end.

(** [addEventListener('change', h)] does nothing when [h] is registered
    already; [removeEventListener('change', h)] removes [h] if it is there. *)
Definition add_listener (h : Handler) (o : MediaQueryList) : MediaQueryList :=
  {| mql_query := mql_query o;
     mql_listeners := if decide (h ∈ mql_listeners o) then mql_listeners o
                      else mql_listeners o ++ [h] |}.

Definition remove_listener (h : Handler) (o : MediaQueryList) : MediaQueryList :=
  {| mql_query := mql_query o;
     mql_listeners := filter (fun h' => h' ≠ h) (mql_listeners o) |}.

Definition addEventListener (r : MqlRef) (h : Handler) : M unit := fun w =>
  Returned tt (set_mqls (alter (add_listener h) r (mqls w)) w).

Definition removeEventListener (r : MqlRef) (h : Handler) : M unit := fun w =>
  Returned tt (set_mqls (alter (remove_listener h) r (mqls w)) w).

(** The template literal [`(prefers-color-scheme: ${x})`]. *)
Definition prefers (x : string) : string :=
  "(prefers-color-scheme: " +:+ x +:+ ")".

Definition q_umbrella : string := "(prefers-color-scheme)".
Definition q_dark : string := prefers (scheme_string colorSchemes.dark).
Definition q_light : string := prefers (scheme_string colorSchemes.light).
Definition q_noPreference : string := prefers colorSchemes.noPreference.

(** ** [getInitialColorScheme] *)

(** A stored string that is exactly ['dark'] or ['light']. *)
Definition as_scheme (s : string) : option DarkModeValues :=
  if decide (s = "dark") then Some Dark
  else if decide (s = "light") then Some Light
  else None.

(** [window && window.matchMedia && window.matchMedia(q).matches] *)
Definition window_matches (q : string) : M bool := fun w =>
  match window w with
  | None => Returned false w
  | Some win =>
      match matchMedia win with
      | None => Returned false w
      | Some _ => (r ← window_matchMedia q; read_matches r) w
      end
  end.

Definition getInitialColorScheme
    (defaultValue : DarkModeValues) (useLocalStorage : bool)
    (localStorageKey : string) : M DarkModeValues := fun w =>
  let localValue :=
    match (if useLocalStorage then localStorage w else None) with
    | Some store => as_scheme (or_empty (getItem store localStorageKey))
    | None => None
    end in
  match localValue with
  | Some v => Returned v w
  | None =>
      (d ← window_matches q_dark;
       if (d : bool) then mret colorSchemes.dark
       else
         l ← window_matches q_light;
         if (l : bool) then mret colorSchemes.light
         else mret defaultValue) w
  end.

(** ** The update path, [handleChangeColorScheme] *)

(** A global is truthy when it is there. *)
Definition truthy {A} (x : option A) : bool :=
  match x with Some _ => true | None => false end.

Definition handleChangeColorScheme
    (useLocalStorage : bool) (localStorageKey : string)
    (colorSchema : DarkModeValues) (w : World) : World :=
  let w1 := log_call (SetColorScheme colorSchema)
              (set_colorScheme colorSchema w) in
  match (if useLocalStorage then localStorage w1 else None) with
  | Some store =>
      log_call (SetItem localStorageKey (scheme_string colorSchema))
        (set_localStorage
           (Some (setItem localStorageKey (scheme_string colorSchema) store)) w1)
  | None => w1
  end.

(** The update path of provider [p]. *)
Definition update_path (p : Provider) : DarkModeValues -> World -> World :=
  handleChangeColorScheme (useLocalStorage (config p)) (localStorageKey (config p)).

(** ** The three channel handlers *)

Record MediaQueryListEvent := { matches : bool }.

(** [(event) => event.matches && handleChangeColorScheme(x)] *)
Definition run_handler (h : Handler) (event : MediaQueryListEvent)
    (w : World) : World :=
  match h with
  | handleSetDarkColorScheme useLS key =>
      if matches event
      then handleChangeColorScheme useLS key colorSchemes.dark w else w
  | handleSetLightColorScheme useLS key =>
      if matches event
      then handleChangeColorScheme useLS key colorSchemes.light w else w
  | handleSetDefaultColorScheme dflt useLS key =>
      if matches event
      then handleChangeColorScheme useLS key dflt w else w
  end.

(** The handlers provider [p] memoises. *)
Definition dark_handler (p : Provider) : Handler :=
  handleSetDarkColorScheme (useLocalStorage (config p)) (localStorageKey (config p)).
Definition light_handler (p : Provider) : Handler :=
  handleSetLightColorScheme (useLocalStorage (config p)) (localStorageKey (config p)).
Definition default_handler (p : Provider) : Handler :=
  handleSetDefaultColorScheme (defaultValue p)
    (useLocalStorage (config p)) (localStorageKey (config p)).

(** ** The effect and its cleanup *)

(** [window.matchMedia(q).addEventListener('change', h)] and its
    counterpart; each evaluates [window.matchMedia(q)] anew. *)
Definition subscribe (q : string) (h : Handler) : M unit :=
  r ← window_matchMedia q; addEventListener r h.

Definition unsubscribe (q : string) (h : Handler) : M unit :=
  r ← window_matchMedia q; removeEventListener r h.

(** The function the effect returns; it closes over the three handlers. *)
Record Cleanup := {
  un_dark : Handler;
  un_light : Handler;
  un_default : Handler
}.

Definition cleanup_of (p : Provider) : Cleanup :=
  {| un_dark := dark_handler p;
     un_light := light_handler p;
     un_default := default_handler p |}.

Definition useEffect_body (p : Provider) : M (option Cleanup) := fun w =>
  if listenWindowEvents (config p)
     && negb (useLocalStorage (config p) && truthy (localStorage w))
     && truthy (window w)
  then
    (u ← window_matchMedia q_umbrella;
     media ← read_media u;
     if decide (media ≠ "not all") then
       subscribe q_dark (dark_handler p);;
       subscribe q_light (light_handler p);;
       subscribe q_noPreference (default_handler p);;
       mret (Some (cleanup_of p))
     else mret None) w
  else Returned None w.

Definition run_cleanup (c : Cleanup) : M unit :=
  unsubscribe q_dark (un_dark c);;
  unsubscribe q_light (un_light c);;
  unsubscribe q_noPreference (un_default c).

(** Mounting: the state cell is seeded by [getInitialColorScheme], then the
    effect runs. *)
Definition mount (p : Provider) : M (option Cleanup) :=
  v ← getInitialColorScheme (defaultValue p)
        (useLocalStorage (config p)) (localStorageKey (config p));
  (fun w => Returned tt (set_colorScheme v w));;
  useEffect_body p.

(** ** Delivery of [change] events

    When the answer to query [q] changes, the host fires [change] at every
    list object built from [q], oldest first; an object calls its listeners
    in registration order. *)
Definition dispatch (o : MediaQueryList) (event : MediaQueryListEvent)
    (w : World) : World :=
  foldl (fun w h => run_handler h event w) w (mql_listeners o).

Definition deliver (q : string) (event : MediaQueryListEvent) (w : World) : World :=
  foldl (fun w o => if decide (mql_query o = q) then dispatch o event w else w)
        w (mqls w).




(** ** The context, [useDarkMode] and [DarkModeConsumer] *)

Definition ContextValue : Type := DarkModeValues * Setter.

(** [React.createContext([colorSchemes.light, () => null])] *)
Definition DarkModeContext_default : ContextValue :=
  (colorSchemes.light, setter_null).

(** The value the provider passes down. *)
Definition provider_value (p : Provider) (w : World) : ContextValue :=
  (colorScheme w,
   setter_handleChangeColorScheme
     (useLocalStorage (config p)) (localStorageKey (config p))).

(** [useContext]: the value of the nearest provider, or the default. *)
Definition useContext (nearest : option ContextValue) : ContextValue :=
  default DarkModeContext_default nearest.

Definition useDarkMode (nearest : option ContextValue) : ContextValue :=
  useContext nearest.

Definition call_setter (f : Setter) (v : DarkModeValues) (w : World) : World :=
  match f with
  | setter_null => w
  | setter_handleChangeColorScheme useLS key =>
      handleChangeColorScheme useLS key v w
  end.

(** Property values a component can receive. *)
Inductive JsValue :=
| VUndefined
| VBool (b : bool)
| VString (s : string)
| VFunction (f : Setter).

#[global] Instance JsValue_eq_dec : EqDecision JsValue.
Proof. solve_decision. Defined.

(** The context value is the array [[colorScheme, handleChangeColorScheme]]. *)
Definition context_array (v : ContextValue) : list JsValue :=
  [VString (scheme_string (fst v)); VFunction (snd v)].

(** The own enumerable properties of an array are its indices, as decimal
    strings; that is what an object spread of an array copies. *)
Definition index_key (i : nat) : string :=
  NilEmpty.string_of_uint (Nat.to_uint i).

Definition array_props (l : list JsValue) : gmap string JsValue :=
  list_to_map (imap (fun i v => (index_key i, v)) l).

(** [{ ...a, ...b }]: on a shared key the later spread wins. *)
Definition spread2 (a b : gmap string JsValue) : gmap string JsValue := b ∪ a.

Section Consumer.
(** Component types are opaque. *)
Context {ComponentType : Type}.

Record Element := {
  el_type : ComponentType;
  el_props : gmap string JsValue
}.

(** [DarkModeConsumer(Component)(props)] is a [Consumer] element whose
    child is [(value) => <Component {...props} {...value} />]. *)
Definition DarkModeConsumer (Component : ComponentType)
    (props : gmap string JsValue) (value : ContextValue) : Element :=
  {| el_type := Component;
     el_props := spread2 props (array_props (context_array value)) |}.

(** Rendering the [Consumer] calls its child with the context value. *)
Definition render_Consumer (nearest : option ContextValue)
    (child : ContextValue -> Element) : Element :=
  child (useContext nearest).
End Consumer.
Arguments Element : clear implicits.

(** ** Re-running the effect *)

(** The effect's dependency list. *)
Definition effect_deps (p : Provider)
  : Handler * Handler * Handler * bool * bool :=
  (dark_handler p, default_handler p, light_handler p,
   listenWindowEvents (config p), useLocalStorage (config p)).

(** Unmounting runs the cleanup the last effect returned, if any. *)
Definition unmount (prev : option Cleanup) : M unit :=
  match prev with
  | Some c => run_cleanup c
  | None => mret tt
  end.

(** A render with new props [p'] after one with [p]: when a dependency
    changed, the previous cleanup runs and then the effect runs again;
    otherwise nothing happens. The state cell keeps its value. *)
Definition rerender (prev : option Cleanup) (p p' : Provider)
  : M (option Cleanup) :=
  if decide (effect_deps p = effect_deps p') then mret prev
  else unmount prev;; useEffect_body p'.

(** ** Hosts whose globals cannot always be read

    A [World] says what the two globals hold. Reading a global can also
    throw: outside a browser the names [window] and [localStorage] are not
    declared (a [ReferenceError]), and in a browser with storage blocked the
    getter of [localStorage] refuses (a [SecurityError]). [Access] records
    this for a host; when a read throws, what the [World] holds for that
    global plays no part. Module [Host] has the functions of the source with
    every read of a global made explicit; the functions above are these on a
    host whose globals can be read ([readable]). *)
Record Access := {
  localStorage_error : option JsError;
  window_error : option JsError
}.

Definition readable : Access :=
  {| localStorage_error := None; window_error := None |}.

(** Evaluating the identifier [localStorage], and the identifier [window]. *)
Definition read_localStorage (a : Access)
  : M (option (gmap string string)) := fun w =>
  match localStorage_error a with
  | Some e => Thrown e w
  | None => Returned (localStorage w) w
  end.

Definition read_window (a : Access) : M (option Window) := fun w =>
  match window_error a with
  | Some e => Thrown e w
  | None => Returned (window w) w
  end.

(** A step that only changes the world. *)
Definition modify (f : World -> World) : M unit := fun w => Returned tt (f w).

(** What a call leaves behind: its value, or the exception it threw. *)
Definition result_of {A} (o : Outcome A) : JsError + A :=
  match o with Returned a _ => inr a | Thrown e _ => inl e end.

Module Host.

(** [window.matchMedia(q)] *)
Definition window_matchMedia (a : Access) (q : string) : M MqlRef :=
  read_window a;; window_matchMedia q.

(** [window && window.matchMedia && window.matchMedia(q).matches] *)
Definition window_matches (a : Access) (q : string) : M bool :=
  win ← read_window a;
  match win with
  | None => mret false
  | Some win =>
      match matchMedia win with
      | None => mret false
      | Some _ => r ← window_matchMedia a q; read_matches r
      end
  end.

Definition getInitialColorScheme (a : Access)
    (defaultValue : DarkModeValues) (useLocalStorage : bool)
    (localStorageKey : string) : M DarkModeValues :=
  localValue ←
    (if useLocalStorage then
       (ls ← read_localStorage a;
        match ls with
        | Some store =>
            mret (as_scheme (or_empty (getItem store localStorageKey)))
        | None => mret None
        end)
     else mret None);
  match localValue with
  | Some v => mret v
  | None =>
      d ← window_matches a q_dark;
      if (d : bool) then mret colorSchemes.dark
      else
        l ← window_matches a q_light;
        if (l : bool) then mret colorSchemes.light
        else mret defaultValue
  end.

(** [setColorScheme(colorSchema)], then
    [if (useLocalStorage && localStorage) localStorage.setItem(...)]. *)
Definition handleChangeColorScheme (a : Access)
    (useLocalStorage : bool) (localStorageKey : string)
    (colorSchema : DarkModeValues) : M unit :=
  modify (fun w => log_call (SetColorScheme colorSchema)
                    (set_colorScheme colorSchema w));;
  if useLocalStorage then
    (ls ← read_localStorage a;
     match ls with
     | Some store =>
         modify (fun w =>
           log_call (SetItem localStorageKey (scheme_string colorSchema))
             (set_localStorage
                (Some (setItem localStorageKey (scheme_string colorSchema)
                         store)) w))
     | None => mret tt
     end)
  else mret tt.

(** [(event) => event.matches && handleChangeColorScheme(x)] *)
Definition run_handler (a : Access) (h : Handler)
    (event : MediaQueryListEvent) : M unit :=
  match h with
  | handleSetDarkColorScheme useLS key =>
      if matches event
      then handleChangeColorScheme a useLS key colorSchemes.dark else mret tt
  | handleSetLightColorScheme useLS key =>
      if matches event
      then handleChangeColorScheme a useLS key colorSchemes.light else mret tt
  | handleSetDefaultColorScheme dflt useLS key =>
      if matches event
      then handleChangeColorScheme a useLS key dflt else mret tt
  end.

(** An exception thrown by a listener is reported by the host and does not
    stop the dispatch: the next listener starts from the world the failed
    one left. *)
Definition dispatch (a : Access) (o : MediaQueryList)
    (event : MediaQueryListEvent) (w : World) : World :=
  foldl (fun w h => world_of (run_handler a h event w)) w (mql_listeners o).

Definition deliver (a : Access) (q : string) (event : MediaQueryListEvent)
    (w : World) : World :=
  foldl (fun w o => if decide (mql_query o = q) then dispatch a o event w else w)
        w (mqls w).

Definition subscribe (a : Access) (q : string) (h : Handler) : M unit :=
  read_window a;; subscribe q h.

Definition unsubscribe (a : Access) (q : string) (h : Handler) : M unit :=
  read_window a;; unsubscribe q h.

Definition useEffect_body (a : Access) (p : Provider) : M (option Cleanup) :=
  if listenWindowEvents (config p) then
    (choosesLS ←
       (if useLocalStorage (config p)
        then (ls ← read_localStorage a; mret (truthy ls))
        else mret false);
     if (choosesLS : bool) then mret None
     else
       win ← read_window a;
       match win with
       | None => mret None
       | Some _ =>
           u ← window_matchMedia a q_umbrella;
           media ← read_media u;
           if decide (media ≠ "not all") then
             (subscribe a q_dark (dark_handler p);;
              subscribe a q_light (light_handler p);;
              subscribe a q_noPreference (default_handler p);;
              mret (Some (cleanup_of p)))
           else mret None
       end)
  else mret None.

Definition run_cleanup (a : Access) (c : Cleanup) : M unit :=
  unsubscribe a q_dark (un_dark c);;
  unsubscribe a q_light (un_light c);;
  unsubscribe a q_noPreference (un_default c).

Definition mount (a : Access) (p : Provider) : M (option Cleanup) :=
  v ← getInitialColorScheme a (defaultValue p)
        (useLocalStorage (config p)) (localStorageKey (config p));
  modify (set_colorScheme v);;
  useEffect_body a p.

End Host.

(** * Properties *)

(** ** What the host reports, in the specification's terms *)

(** The OS reports a match for query [q]. *)
Definition os_reports (w : World) (q : string) : bool :=
  match the_matchMedia w with
  | Some mm => mq_matches mm q
  | None => false
  end.

(** The OS tier of the resolver: dark if the OS prefers dark, else light if
    it prefers light. *)
Definition os_choice (w : World) : option DarkModeValues :=
  if os_reports w q_dark then Some Dark
  else if os_reports w q_light then Some Light
  else None.

(** The persisted tier: consulted only with [useLocalStorage] and an
    available store, and only a stored ["dark"] or ["light"] counts. *)
Definition persisted_choice (useLS : bool) (key : string) (w : World)
  : option DarkModeValues :=
  if useLS then
    match localStorage w with
    | Some store =>
        match store !! key with
        | Some "dark" => Some Dark
        | Some "light" => Some Light
        | _ => None
        end
    | None => None
    end
  else None.

(** The resolver as the specification words it: the persisted choice
    outranks the OS signal, which outranks the default. *)
Definition resolveInitial_spec (dflt : DarkModeValues) (useLS : bool)
    (key : string) (w : World) : DarkModeValues :=
  match persisted_choice useLS key w with
  | Some v => v
  | None => match os_choice w with
            | Some v => v
            | None => dflt
            end
  end.

(** The listeners that a [change] of query [q] reaches, in calling order. *)
Definition listeners_of (q : string) (l : list MediaQueryList) : list Handler :=
  concat (mql_listeners <$> filter (fun o => mql_query o = q) l).

(** Two worlds that differ at most in their list objects. *)
Definition same_host (w w' : World) : Prop :=
  localStorage w' = localStorage w ∧ window w' = window w ∧
  colorScheme w' = colorScheme w ∧ calls w' = calls w.

(** The environment-query facility works: the umbrella query is understood. *)
Definition os_query_supported (w : World) : Prop :=
  ∃ mm, the_matchMedia w = Some mm ∧ mq_media mm q_umbrella ≠ "not all".

(** The effect returned a cleanup function: the watcher is active. *)
Definition watcher_active (o : Outcome (option Cleanup)) : Prop :=
  ∃ c, value_of o = Some (Some c).

(** Handler [h] is reached by a [change] of query [q]. *)
Definition subscribed (q : string) (h : Handler) (w : World) : Prop :=
  h ∈ listeners_of q (mqls w).

(** No list object carries a listener. *)
Definition quiet (w : World) : Prop :=
  Forall (fun o => mql_listeners o = []) (mqls w).

(** No two list objects were built from the same query. *)
Definition one_per_query (w : World) : Prop :=
  NoDup (mql_query <$> mqls w).

(** The invariant of a host [mm] that interns its list objects. *)
Definition interning_inv (mm : MatchMedia) (w : World) : Prop :=
  the_matchMedia w = Some mm ∧ one_per_query w.

(** The update path a handler closes over. *)
Definition handler_closure (h : Handler) : bool * string :=
  match h with
  | handleSetDarkColorScheme useLS key => (useLS, key)
  | handleSetLightColorScheme useLS key => (useLS, key)
  | handleSetDefaultColorScheme _ useLS key => (useLS, key)
  end.



(** The values passed to the state setter, and the storage writes, of a
    stretch of the call log. *)
Definition updates (l : list Call) : list DarkModeValues :=
  omap (fun c => match c with SetColorScheme v => Some v | _ => None end) l.


(** The values passed to the state setter between [w] and a later [w']. *)
Definition forwarded (w w' : World) : list DarkModeValues :=
  updates (drop (length (calls w)) (calls w')).




(** The order of the update path's two steps as the specification has it:
    the write-through first, the state update second. *)
Definition write_before_update (p : Provider) (v : DarkModeValues) (w : World)
  : Prop :=
  calls (update_path p v w)
  = calls w ++ [SetItem (localStorageKey (config p)) (scheme_string v);
                SetColorScheme v].

(** The wrapped component as the specification has it: [Component] with all
    of [props], plus the scheme and the setter under the names
    [colorScheme] and [handleChangeColorScheme]. *)
Definition injects_named_props {C} (e : Element C)
    (props : gmap string JsValue) (value : ContextValue) : Prop :=
  props ⊆ el_props e ∧
  el_props e !! "colorScheme" = Some (VString (scheme_string (fst value))) ∧
  el_props e !! "handleChangeColorScheme" = Some (VFunction (snd value)).

(** The state cell follows the call log: between [w] and [w'] only the
    update path ran, and the cell holds the last value handed to the state
    setter, or its old value when there was none. *)
Definition tracks (w w' : World) : Prop :=
  mqls w' = mqls w ∧ window w' = window w ∧
  ∃ new, calls w' = calls w ++ new ∧
         colorScheme w' = default (colorScheme w) (last (updates new)).


(** ** Sample hosts and providers *)

(** A browser whose OS prefers the light scheme. *)
Definition browser_light : MatchMedia :=
  {| mq_media := fun q => q;
     mq_matches := fun q => bool_decide (q = q_light);
     mq_interned := false |}.

(** A host that keeps one list object per query string. *)
Definition interning_light : MatchMedia :=
  {| mq_media := fun q => q;
     mq_matches := fun q => bool_decide (q = q_light);
     mq_interned := true |}.

(** A freshly loaded page: no list object yet, empty call log. *)
Definition page (mm : MatchMedia) (store : option (gmap string string)) : World :=
  {| localStorage := store;
     window := Some {| matchMedia := Some mm |};
     mqls := [];
     colorScheme := Light;
     calls := [] |}.

(** [<DarkModeProvider>] with no props, and one that persists under ["k"]. *)
Definition plain_provider : Provider := DarkModeProvider_props None None.

Definition persisting_provider : Provider :=
  DarkModeProvider_props (Some Dark)
    (Some {| cfg_localStorageKey := Some (Value "k");
             cfg_listenWindowEvents := None;
             cfg_useLocalStorage := Some (Value true) |}).

(** What the resolver leaves behind on any host: the exception of the first
    read that throws, among those the code gets to, and else the persisted
    choice, the OS choice or the default value. *)
Definition resolver_result (a : Access) (dflt : DarkModeValues) (useLS : bool)
    (key : string) (w : World) : JsError + DarkModeValues :=
  match (if useLS then localStorage_error a else None) with
  | Some e => inl e
  | None =>
      match persisted_choice useLS key w with
      | Some v => inr v
      | None =>
          match window_error a with
          | Some e => inl e
          | None => inr (default dflt (os_choice w))
          end
      end
  end.

(** The reads of [localStorage] that the code gets to, given the flag, do
    not throw. *)
Definition storage_reads_ok (a : Access) (useLS : bool) : Prop :=
  (if useLS then localStorage_error a else None) = None.

(** A browser in which storage is blocked, and a host that is no browser. *)
Definition blocked_storage : Access :=
  {| localStorage_error := Some SecurityError; window_error := None |}.

Definition no_globals : Access :=
  {| localStorage_error := Some ReferenceError;
     window_error := Some ReferenceError |}.

(** The state of a host that is no browser. *)
Definition bare : World :=
  {| localStorage := None; window := None; mqls := [];
     colorScheme := Light; calls := [] |}.

(** ** Helper lemmas *)

Lemma same_host_refl w : same_host w w.
Proof. by repeat split. Qed.

Lemma same_host_trans w1 w2 w3 :
  same_host w1 w2 → same_host w2 w3 → same_host w1 w3.
Proof. unfold same_host. intros (?&?&?&?) (?&?&?&?). repeat split; congruence. Qed.

Lemma same_host_matchMedia w w' :
  same_host w w' → the_matchMedia w' = the_matchMedia w.
Proof. intros (_&Hw&_). unfold the_matchMedia. by rewrite Hw. Qed.

Lemma same_host_set_mqls l w : same_host w (set_mqls l w).
Proof. by repeat split. Qed.

Lemma listeners_of_app q l1 l2 :
  listeners_of q (l1 ++ l2) = listeners_of q l1 ++ listeners_of q l2.
Proof. unfold listeners_of. by rewrite filter_app, fmap_app, concat_app. Qed.

Lemma listeners_of_cons q o l :
  listeners_of q (o :: l) =
  (if decide (mql_query o = q) then mql_listeners o else []) ++ listeners_of q l.
Proof.
  unfold listeners_of. rewrite filter_cons.
  destruct (decide (mql_query o = q)); done.
Qed.

Lemma listeners_of_new q q' l :
  listeners_of q' (l ++ [new_mql q]) = listeners_of q' l.
Proof.
  rewrite listeners_of_app, listeners_of_cons. simpl.
  destruct (decide (q = q')); by rewrite app_nil_r.
Qed.

Lemma find_mql_Some q l r :
  find_mql q l = Some r → ∃ o, l !! r = Some o ∧ mql_query o = q.
Proof.
  unfold find_mql. intros H.
  destruct (list_find _ l) as [[i o]|] eqn:E; simplify_eq/=.
  apply list_find_Some in E as (?&?&?). eauto.
Qed.

(** [window.matchMedia(q)] on a window that has it: a reference to a list
    object built from [q], at the price of at most one new, listener-free
    object. *)
Lemma window_matchMedia_Returned q w mm :
  the_matchMedia w = Some mm →
  ∃ r w', window_matchMedia q w = Returned r w' ∧ same_host w w' ∧
          (∃ o, mqls w' !! r = Some o ∧ mql_query o = q) ∧
          (∀ q', listeners_of q' (mqls w') = listeners_of q' (mqls w)).
Proof.
  intros Hmm. unfold window_matchMedia. rewrite Hmm.
  destruct (if mq_interned mm then find_mql q (mqls w) else None) as [r|] eqn:E.
  - exists r, w. split_and!; [done|apply same_host_refl| |done].
    destruct (mq_interned mm); [|done]. by apply find_mql_Some.
  - eexists _, _. split_and!; [done|apply same_host_set_mqls| |].
    + exists (new_mql q). split; [|done]. simpl.
      by rewrite lookup_app_r, Nat.sub_diag.
    + intros q'. simpl. apply listeners_of_new.
Qed.

Lemma window_matchMedia_Thrown q w :
  the_matchMedia w = None → window_matchMedia q w = Thrown TypeError w.
Proof. intros H. unfold window_matchMedia. by rewrite H. Qed.

(** The guarded read of [matches] never throws and answers what the OS
    reports. *)
Lemma window_matches_spec q w :
  ∃ w', window_matches q w = Returned (os_reports w q) w' ∧ same_host w w' ∧
        (∀ q', listeners_of q' (mqls w') = listeners_of q' (mqls w)).
Proof.
  unfold window_matches, os_reports.
  destruct (the_matchMedia w) as [mm|] eqn:Hmm.
  - pose proof Hmm as Hmm'. unfold the_matchMedia in Hmm'.
    destruct (window w) as [win|]; [|done]. rewrite Hmm'.
    destruct (window_matchMedia_Returned q w mm Hmm) as (r&w'&Hr&Hs&(o&Ho&Hq)&Hl).
    exists w'. split_and!; [|done..].
    unfold mbind, M_bind. rewrite Hr. unfold read_matches.
    by rewrite (same_host_matchMedia _ _ Hs), Hmm, Ho, Hq.
  - exists w. split_and!; [|apply same_host_refl|done].
    unfold the_matchMedia in Hmm.
    destruct (window w) as [win|]; [|done]. by rewrite Hmm.
Qed.

Lemma as_scheme_spec s :
  as_scheme s = match s with
                | "dark" => Some Dark
                | "light" => Some Light
                | _ => None
                end.
Proof.
  unfold as_scheme. destruct (decide (s = "dark")) as [->|H1]; [done|].
  destruct (decide (s = "light")) as [->|H2]; [done|].
  repeat (match goal with
          | |- context [match ?x with _ => _ end] =>
              destruct x; simplify_eq/=; try done
          end).
Qed.

(** The resolver always returns, and touches nothing but the heap of list
    objects, where it registers no listener. *)
Lemma getInitialColorScheme_Returned dflt useLS key w :
  ∃ w', getInitialColorScheme dflt useLS key w
          = Returned (resolveInitial_spec dflt useLS key w) w' ∧
        same_host w w' ∧
        (∀ q, listeners_of q (mqls w') = listeners_of q (mqls w)).
Proof.
  unfold getInitialColorScheme, resolveInitial_spec, persisted_choice.
  assert (Hos : ∃ w',
    (d ← window_matches q_dark;
     if (d : bool) then mret colorSchemes.dark
     else l ← window_matches q_light;
          if (l : bool) then mret colorSchemes.light else mret dflt) w
    = Returned (match os_choice w with Some v => v | None => dflt end) w' ∧
    same_host w w' ∧
    (∀ q, listeners_of q (mqls w') = listeners_of q (mqls w))).
  { destruct (window_matches_spec q_dark w) as (w1&H1&Hs1&Hl1).
    destruct (window_matches_spec q_light w1) as (w2&H2&Hs2&Hl2).
    unfold os_choice, mbind, M_bind. rewrite H1.
    destruct (os_reports w q_dark) eqn:Ed.
    - exists w1. by split_and!.
    - rewrite H2.
      assert (os_reports w1 q_light = os_reports w q_light) as ->.
      { unfold os_reports. by rewrite (same_host_matchMedia _ _ Hs1). }
      exists w2. split_and!.
      + by destruct (os_reports w q_light).
      + by eapply same_host_trans.
      + intros q. by rewrite Hl2, Hl1. }
  destruct useLS; [|done].
  destruct (localStorage w) as [store|]; [|done].
  unfold getItem, or_empty. rewrite as_scheme_spec.
  destruct (store !! key) as [s|] eqn:Es; simpl.
  - destruct (match s with "dark" => Some Dark | "light" => Some Light
                         | _ => None end) eqn:E.
    + exists w. split_and!; [|apply same_host_refl|done].
      repeat (match type of E with
              | context [match ?x with _ => _ end] =>
                  destruct x; simplify_eq/=; try done
              end).
    + assert (match s with "dark" => Some Dark | "light" => Some Light
                         | _ => None end = None) as E' by done.
      clear E. revert Hos.
      repeat (match type of E' with
              | context [match ?x with _ => _ end] =>
                  destruct x; simplify_eq/=; try done
              end).
  - done.
Qed.

Lemma persisted_choice_as_scheme useLS key w :
  persisted_choice useLS key w =
  if useLS then store ← localStorage w; s ← store !! key; as_scheme s
  else None.
Proof.
  unfold persisted_choice. destruct useLS; [|done].
  destruct (localStorage w) as [store|]; [|done]. simpl.
  destruct (store !! key) as [s|]; [|done]. simpl. by rewrite as_scheme_spec.
Qed.

Lemma as_scheme_string v : as_scheme (scheme_string v) = Some v.
Proof. by destruct v. Qed.

Lemma as_scheme_other s : s ≠ "dark" → s ≠ "light" → as_scheme s = None.
Proof. intros. unfold as_scheme. by rewrite !decide_False. Qed.

Lemma getInitialColorScheme_value dflt useLS key w :
  value_of (getInitialColorScheme dflt useLS key w)
  = Some (resolveInitial_spec dflt useLS key w).
Proof.
  destruct (getInitialColorScheme_Returned dflt useLS key w) as (w'&H&_).
  by rewrite H.
Qed.

(** ** The resolver *)

(** On a host whose globals can be read: for every default value,
    [useLocalStorage] flag, store contents and OS state,
    [getInitialColorScheme] returns, and its result is the
    persisted value when [useLocalStorage] is set, the store is available and
    holds exactly ["dark"] or ["light"] under the key; otherwise dark if the
    OS reports a match for prefers-dark, else light if it reports a match for
    prefers-light, else the default value. The call leaves the store, the
    state cell and the call log as they were. *)
Theorem getInitialColorScheme_precedence dflt useLS key w :
  ∃ w', getInitialColorScheme dflt useLS key w
        = Returned (resolveInitial_spec dflt useLS key w) w' ∧
        same_host w w'.
Proof.
  destruct (getInitialColorScheme_Returned dflt useLS key w) as (w'&H&Hs&_).
  by exists w'.
Qed.

(** C8. With [useLocalStorage] set, a stored string other than ["dark"] and
    ["light"] (the empty string included) is ignored: the result is the one
    obtained with the key absent, namely the OS tier's choice, or the default
    when the OS reports neither preference. *)
Theorem unexpected_stored_value_ignored dflt key v store w :
  v ≠ "dark" → v ≠ "light" →
  value_of (getInitialColorScheme dflt true key
              (set_localStorage (Some (<[key := v]> store)) w))
  = value_of (getInitialColorScheme dflt true key
                (set_localStorage (Some (delete key store)) w))
  ∧ value_of (getInitialColorScheme dflt true key
                (set_localStorage (Some (<[key := v]> store)) w))
    = Some (default dflt (os_choice w)).
Proof.
  intros Hd Hl. rewrite !getInitialColorScheme_value.
  unfold resolveInitial_spec. rewrite !persisted_choice_as_scheme. simpl.
  rewrite lookup_insert_eq, lookup_delete_eq. simpl.
  rewrite (as_scheme_other v Hd Hl).
  change (os_choice (set_localStorage _ w)) with (os_choice w).
  change (os_choice (set_localStorage _ w)) with (os_choice w).
  by destruct (os_choice w).
Qed.

Lemma unexpected_stored_value_ignored_witness :
  value_of (getInitialColorScheme Dark true "k"
              (set_localStorage (Some (<["k" := ""]> ∅)) (page browser_light None)))
  = Some Light.
Proof.
  destruct (unexpected_stored_value_ignored Dark "k" "" ∅
              (page browser_light None)) as [_ H].
  - discriminate.
  - discriminate.
  - rewrite H. vm_compute. reflexivity.
Defined.

(** ** The update path *)

Lemma handleChangeColorScheme_enabled key v w store :
  localStorage w = Some store →
  handleChangeColorScheme true key v w =
  {| localStorage := Some (<[key := scheme_string v]> store);
     window := window w; mqls := mqls w; colorScheme := v;
     calls := (calls w ++ [SetColorScheme v]) ++ [SetItem key (scheme_string v)] |}.
Proof. intros H. unfold handleChangeColorScheme. simpl. by rewrite H. Qed.

Lemma handleChangeColorScheme_disabled useLS key v w :
  useLS && truthy (localStorage w) = false →
  handleChangeColorScheme useLS key v w =
  {| localStorage := localStorage w;
     window := window w; mqls := mqls w; colorScheme := v;
     calls := calls w ++ [SetColorScheme v] |}.
Proof.
  intros H. unfold handleChangeColorScheme, log_call, set_colorScheme. simpl.
  destruct useLS; [|done]. simpl in H.
  destruct (localStorage w); [discriminate|reflexivity].
Qed.

(** C2, as the code has it. With [useLocalStorage] set and the store
    available, [set(v)] first calls the state setter with [v] and then writes
    [v] through to the store under the configured key; afterwards the state
    cell holds [v] and the store holds [v]'s string under that key. *)
Theorem update_then_write_through p v w store :
  useLocalStorage (config p) = true →
  localStorage w = Some store →
  calls (update_path p v w)
  = calls w ++ [SetColorScheme v;
                SetItem (localStorageKey (config p)) (scheme_string v)]
  ∧ colorScheme (update_path p v w) = v
  ∧ localStorage (update_path p v w)
    = Some (<[localStorageKey (config p) := scheme_string v]> store).
Proof.
  intros Hu Hs. unfold update_path. rewrite Hu.
  rewrite (handleChangeColorScheme_enabled _ _ _ _ Hs). simpl.
  by rewrite <- app_assoc.
Qed.

Lemma update_then_write_through_witness :
  calls (update_path persisting_provider Light (page browser_light (Some ∅)))
  = [SetColorScheme Light; SetItem "k" "light"].
Proof.
  destruct (update_then_write_through persisting_provider Light
              (page browser_light (Some ∅)) ∅) as [H _].
  - reflexivity.
  - reflexivity.
  - exact H.
Defined.

(** C2, as stated, fails: on a persisting provider over an available store
    the write-through is not the first of the two steps. *)
Lemma write_before_update_refuted :
  useLocalStorage (config persisting_provider) = true ∧
  truthy (localStorage (page browser_light (Some ∅))) = true ∧
  ¬ write_before_update persisting_provider Dark (page browser_light (Some ∅)).
Proof.
  split_and!; [done..|]. unfold write_before_update. vm_compute. discriminate.
Qed.

(** C9. Round trip: after [set(x)] on a provider with [useLocalStorage] and
    key [key] over an available store, a fresh provider with
    [useLocalStorage] and the same key over that store starts with [x],
    whatever its default value and whatever the OS reports by then. *)
Theorem set_then_fresh_provider_resolves x key dflt w w' :
  truthy (localStorage w) = true →
  localStorage w' = localStorage (handleChangeColorScheme true key x w) →
  value_of (getInitialColorScheme dflt true key w') = Some x.
Proof.
  intros Ha Hs. destruct (localStorage w) as [store|] eqn:E; [|done].
  rewrite (handleChangeColorScheme_enabled _ _ _ _ E) in Hs. simpl in Hs.
  rewrite getInitialColorScheme_value. f_equal.
  unfold resolveInitial_spec. rewrite persisted_choice_as_scheme, Hs. simpl.
  rewrite lookup_insert_eq. simpl. by rewrite as_scheme_string.
Qed.

Lemma set_then_fresh_provider_resolves_witness :
  value_of (getInitialColorScheme Light true "k"
              (page browser_light
                 (localStorage (handleChangeColorScheme true "k" Dark
                                  (page interning_light (Some ∅))))))
  = Some Dark.
Proof.
  apply (set_then_fresh_provider_resolves Dark "k" Light
           (page interning_light (Some ∅))).
  - reflexivity.
  - reflexivity.
Defined.

(** ** The context outside a provider *)

(** Inside a provider the hook returns the provider's pair, and calling
    its setter is the update path. *)
Lemma useDarkMode_inside_provider p w :
  useDarkMode (Some (provider_value p w)) = provider_value p w ∧
  fst (provider_value p w) = colorScheme w ∧
  ∀ v w', call_setter (snd (provider_value p w)) v w' = update_path p v w'.
Proof. done. Qed.

(** C10. Outside any provider, [useDarkMode] returns the context's default
    pair: the light scheme and a setter that does nothing, so calling it
    changes neither the state cell, nor the store, nor anything else. *)
Theorem useDarkMode_outside_provider :
  useDarkMode None = (Light, setter_null) ∧
  ∀ v w, call_setter (snd (useDarkMode None)) v w = w.
Proof. split; [reflexivity|]. intros v w. reflexivity. Qed.

(** ** The heap of list objects under [subscribe] and [unsubscribe] *)

Lemma listeners_of_alter q f r l o :
  l !! r = Some o → mql_query (f o) = mql_query o →
  ∃ pre post,
    listeners_of q l
    = pre ++ (if decide (mql_query o = q) then mql_listeners o else []) ++ post ∧
    listeners_of q (alter f r l)
    = pre ++ (if decide (mql_query o = q) then mql_listeners (f o) else []) ++ post.
Proof.
  intros Hr Hq. apply list_elem_of_split_length in Hr as (l1&l2&->&->).
  exists (listeners_of q l1), (listeners_of q l2).
  rewrite alter_app_r_alt, Nat.sub_diag by done. simpl.
  by rewrite !listeners_of_app, !listeners_of_cons, Hq.
Qed.

Lemma quiet_listeners_of w q : quiet w → listeners_of q (mqls w) = [].
Proof.
  unfold quiet. induction 1 as [|o l Ho _ IH]; [done|].
  rewrite listeners_of_cons, Ho, IH. by destruct (decide _).
Qed.

Lemma q_dark_light : q_dark ≠ q_light.
Proof. discriminate. Qed.
Lemma q_dark_noPreference : q_dark ≠ q_noPreference.
Proof. discriminate. Qed.
Lemma q_light_noPreference : q_light ≠ q_noPreference.
Proof. discriminate. Qed.

Lemma subscribe_Returned q h w mm :
  the_matchMedia w = Some mm →
  ∃ w', subscribe q h w = Returned tt w' ∧ same_host w w' ∧
    (∀ q', q' ≠ q → listeners_of q' (mqls w') = listeners_of q' (mqls w)) ∧
    subscribed q h w' ∧
    (∀ h', subscribed q h' w → subscribed q h' w') ∧
    (listeners_of q (mqls w) = [] → listeners_of q (mqls w') = [h]).
Proof.
  intros Hmm.
  destruct (window_matchMedia_Returned q w mm Hmm) as (r&w1&Hr&Hs&(o&Ho&Hq)&Hl).
  exists (set_mqls (alter (add_listener h) r (mqls w1)) w1).
  split; [unfold subscribe, mbind, M_bind; by rewrite Hr|].
  split; [eapply same_host_trans; [done|apply same_host_set_mqls]|].
  unfold subscribed. simpl.
  assert (Halt : ∀ q', ∃ pre post,
    listeners_of q' (mqls w)
    = pre ++ (if decide (q = q') then mql_listeners o else []) ++ post ∧
    listeners_of q' (alter (add_listener h) r (mqls w1))
    = pre ++ (if decide (q = q')
              then mql_listeners (add_listener h o) else []) ++ post).
  { intros q'. rewrite <- Hl, <- Hq.
    by apply (listeners_of_alter q' (add_listener h) r (mqls w1) o). }
  split_and!.
  - intros q' Hne. destruct (Halt q') as (pre&post&H1&H2).
    rewrite H1, H2. by rewrite !decide_False.
  - destruct (Halt q) as (pre&post&_&H2). rewrite H2, decide_True by done.
    simpl. destruct (decide (h ∈ mql_listeners o));
      rewrite ?elem_of_app, ?list_elem_of_singleton; auto.
  - intros h'. destruct (Halt q) as (pre&post&H1&H2).
    rewrite H1, H2, !decide_True by done. simpl.
    destruct (decide (h ∈ mql_listeners o)); [done|].
    rewrite !elem_of_app. tauto.
  - destruct (Halt q) as (pre&post&H1&H2).
    rewrite H1, H2, !decide_True by done. simpl. intros Hnil.
    apply app_nil in Hnil as [-> Hnil].
    apply app_nil in Hnil as [-> ->]. done.
Qed.

(** In a browser [matchMedia] builds a new object at every call. *)
Lemma window_matchMedia_browser q w mm :
  the_matchMedia w = Some mm → mq_interned mm = false →
  window_matchMedia q w
  = Returned (length (mqls w)) (set_mqls (mqls w ++ [new_mql q]) w).
Proof. intros H1 H2. unfold window_matchMedia. by rewrite H1, H2. Qed.

(** So [unsubscribe] detaches from an object that never had a listener,
    and every registered listener stays where it is. *)
Lemma unsubscribe_browser q h w mm :
  the_matchMedia w = Some mm → mq_interned mm = false →
  ∃ w', unsubscribe q h w = Returned tt w' ∧ same_host w w' ∧
        (∀ q', listeners_of q' (mqls w') = listeners_of q' (mqls w)).
Proof.
  intros H1 H2. eexists. split_and!.
  - unfold unsubscribe, mbind, M_bind.
    by rewrite (window_matchMedia_browser q w mm H1 H2).
  - by repeat split.
  - intros q'. simpl.
    rewrite alter_app_r_alt, Nat.sub_diag by done. simpl.
    apply (listeners_of_new q q' (mqls w)).
Qed.

Lemma run_cleanup_browser c w mm :
  the_matchMedia w = Some mm → mq_interned mm = false →
  ∃ w', run_cleanup c w = Returned tt w' ∧ same_host w w' ∧
        (∀ q, listeners_of q (mqls w') = listeners_of q (mqls w)).
Proof.
  intros H1 H2.
  destruct (unsubscribe_browser q_dark (un_dark c) w mm H1 H2)
    as (w1&E1&Hs1&Hl1).
  assert (the_matchMedia w1 = Some mm) as H1'
    by by rewrite (same_host_matchMedia _ _ Hs1).
  destruct (unsubscribe_browser q_light (un_light c) w1 mm H1' H2)
    as (w2&E2&Hs2&Hl2).
  assert (the_matchMedia w2 = Some mm) as H1''
    by by rewrite (same_host_matchMedia _ _ Hs2).
  destruct (unsubscribe_browser q_noPreference (un_default c) w2 mm H1'' H2)
    as (w3&E3&Hs3&Hl3).
  exists w3. split_and!.
  - unfold run_cleanup, mbind, M_bind. by rewrite E1, E2, E3.
  - eauto using same_host_trans.
  - intros q. by rewrite Hl3, Hl2, Hl1.
Qed.

(** ** The watcher *)

Lemma the_matchMedia_window w mm :
  the_matchMedia w = Some mm → truthy (window w) = true.
Proof. unfold the_matchMedia. by destruct (window w). Qed.

Lemma read_media_Returned r w mm o :
  the_matchMedia w = Some mm → mqls w !! r = Some o →
  read_media r w = Returned (mq_media mm (mql_query o)) w.
Proof. intros H1 H2. unfold read_media. by rewrite H1, H2. Qed.

(** The effect on an eligible provider over a supporting host. *)
Lemma useEffect_body_active p w mm :
  listenWindowEvents (config p) = true →
  useLocalStorage (config p) && truthy (localStorage w) = false →
  the_matchMedia w = Some mm →
  mq_media mm q_umbrella ≠ "not all" →
  ∃ w', useEffect_body p w = Returned (Some (cleanup_of p)) w' ∧
    same_host w w' ∧
    subscribed q_dark (dark_handler p) w' ∧
    subscribed q_light (light_handler p) w' ∧
    subscribed q_noPreference (default_handler p) w' ∧
    ((∀ q, listeners_of q (mqls w) = []) →
     listeners_of q_dark (mqls w') = [dark_handler p] ∧
     listeners_of q_light (mqls w') = [light_handler p] ∧
     listeners_of q_noPreference (mqls w') = [default_handler p]).
Proof.
  intros Hl Hs Hmm Hmedia.
  destruct (window_matchMedia_Returned q_umbrella w mm Hmm)
    as (u&w0&E0&Hs0&(o&Ho&Hq)&Hl0).
  assert (the_matchMedia w0 = Some mm) as Hmm0
    by by rewrite (same_host_matchMedia _ _ Hs0).
  destruct (subscribe_Returned q_dark (dark_handler p) w0 mm Hmm0)
    as (w1&E1&Hs1&Ho1&Hin1&_&Hq1).
  assert (the_matchMedia w1 = Some mm) as Hmm1
    by by rewrite (same_host_matchMedia _ _ Hs1).
  destruct (subscribe_Returned q_light (light_handler p) w1 mm Hmm1)
    as (w2&E2&Hs2&Ho2&Hin2&_&Hq2).
  assert (the_matchMedia w2 = Some mm) as Hmm2
    by by rewrite (same_host_matchMedia _ _ Hs2).
  destruct (subscribe_Returned q_noPreference (default_handler p) w2 mm Hmm2)
    as (w3&E3&Hs3&Ho3&Hin3&_&Hq3).
  pose proof q_dark_light. pose proof q_dark_noPreference.
  pose proof q_light_noPreference.
  exists w3. split_and!.
  - unfold useEffect_body.
    rewrite Hl, Hs, (the_matchMedia_window _ _ Hmm). simpl.
    unfold mbind, M_bind, mret, M_ret.
    rewrite E0, (read_media_Returned _ _ _ _ Hmm0 Ho), Hq.
    rewrite decide_True by done. by rewrite E1, E2, E3.
  - eauto using same_host_trans.
  - unfold subscribed in *. by rewrite Ho3, Ho2.
  - unfold subscribed in *. by rewrite Ho3.
  - done.
  - intros Hquiet.
    rewrite Ho3, Ho2, Hq1 by (done || by rewrite Hl0).
    rewrite Ho3, Hq2 by (done || by rewrite Ho1, Hl0).
    rewrite Hq3 by (done || by rewrite Ho2, Ho1, Hl0).
    done.
Qed.

(** Otherwise the effect returns no cleanup (or throws, on a window without
    [matchMedia]) and registers nothing. *)
Lemma useEffect_body_inactive p w :
  ¬ (listenWindowEvents (config p) = true ∧
     useLocalStorage (config p) && truthy (localStorage w) = false ∧
     os_query_supported w) →
  ¬ watcher_active (useEffect_body p w) ∧
  ∀ q, listeners_of q (mqls (world_of (useEffect_body p w)))
       = listeners_of q (mqls w).
Proof.
  intros Hn. unfold useEffect_body, watcher_active.
  destruct (listenWindowEvents (config p)); simpl;
    [|split; [by intros [c ?]|done]].
  destruct (useLocalStorage (config p) && truthy (localStorage w)); simpl;
    [split; [by intros [c ?]|done]|].
  destruct (window w) as [win|] eqn:Ew; simpl;
    [|split; [by intros [c ?]|done]].
  destruct (the_matchMedia w) as [mm|] eqn:Hmm.
  - destruct (window_matchMedia_Returned q_umbrella w mm Hmm)
      as (u&w0&E0&Hs0&(o&Ho&Hq)&Hl0).
    assert (the_matchMedia w0 = Some mm) as Hmm0
      by by rewrite (same_host_matchMedia _ _ Hs0).
    unfold mbind, M_bind, mret, M_ret.
    rewrite E0, (read_media_Returned _ _ _ _ Hmm0 Ho), Hq.
    destruct (decide (mq_media mm q_umbrella ≠ "not all")) as [Hm|Hm].
    + destruct Hn. split_and!; [done..|]. by exists mm.
    + split; [by intros [c ?]|done].
  - unfold mbind, M_bind.
    rewrite (window_matchMedia_Thrown _ _ Hmm). simpl.
    split; [by intros [c ?]|done].
Qed.

Lemma useEffect_body_active_inv p w :
  watcher_active (useEffect_body p w) →
  listenWindowEvents (config p) = true ∧
  useLocalStorage (config p) && truthy (localStorage w) = false ∧
  ∃ mm, the_matchMedia w = Some mm ∧ mq_media mm q_umbrella ≠ "not all".
Proof.
  intros Ha.
  destruct (decide (listenWindowEvents (config p) = true ∧
                    useLocalStorage (config p) && truthy (localStorage w) = false))
    as [[Hl Hs]|Hn].
  - split_and!; [done..|].
    destruct (the_matchMedia w) as [mm|] eqn:Hmm.
    + exists mm. split; [done|]. intros Hm.
      destruct (useEffect_body_inactive p w) as [Hna _]; [|done].
      intros (_&_&mm'&?&?). congruence.
    + destruct (useEffect_body_inactive p w) as [Hna _]; [|done].
      intros (_&_&mm'&?&?). congruence.
  - destruct (useEffect_body_inactive p w) as [Hna _]; [|done]. tauto.
Qed.

Lemma not_persisting_iff {A} (b : bool) (x : option A) :
  b && truthy x = false ↔ ¬ (b = true ∧ is_Some x).
Proof.
  destruct b, x as [a|]; simpl; split; try done.
  - intros H. destruct H. eauto.
  - intros _ [_ [a Ha]]. discriminate.
  - intros _ [Hb _]. discriminate.
  - intros _ [Hb _]. discriminate.
Qed.

(** On a host whose globals can be read: the watcher becomes active, that
    is the effect returns its cleanup function, exactly when [listenWindowEvents] is set, it is not the case
    that [useLocalStorage] is set and the store is available, and the host
    understands the umbrella query (its [media] is not ["not all"]).  Being
    active is the same as having subscribed the three channel handlers and
    returned the cleanup for them; when the watcher stays inactive no
    listener is registered. *)
Theorem watcher_activates_iff p w :
  let o := useEffect_body p w in
  (watcher_active o ↔
     listenWindowEvents (config p) = true ∧
     ¬ (useLocalStorage (config p) = true ∧ is_Some (localStorage w)) ∧
     os_query_supported w)
  ∧ (watcher_active o ↔
       value_of o = Some (Some (cleanup_of p)) ∧
       subscribed q_dark (dark_handler p) (world_of o) ∧
       subscribed q_light (light_handler p) (world_of o) ∧
       subscribed q_noPreference (default_handler p) (world_of o))
  ∧ (watcher_active o ∨
       ∀ q, listeners_of q (mqls (world_of o)) = listeners_of q (mqls w)).
Proof.
  intros o. subst o.
  pose proof (not_persisting_iff (useLocalStorage (config p)) (localStorage w))
    as Hb.
  assert (Hv : value_of (useEffect_body p w) = Some (Some (cleanup_of p)) →
               watcher_active (useEffect_body p w)) by (intros ?; by eexists).
  destruct (decide (listenWindowEvents (config p) = true)) as [Hl|Hl].
  2:{ destruct (useEffect_body_inactive p w) as [Hna Hq]; [tauto|].
      split_and!; [tauto|tauto|by right]. }
  destruct (useLocalStorage (config p) && truthy (localStorage w)) eqn:Hs.
  { destruct (useEffect_body_inactive p w) as [Hna Hq].
    - rewrite Hs. intros (_&?&_). done.
    - assert (¬ ¬ (useLocalStorage (config p) = true ∧ is_Some (localStorage w)))
        by (rewrite <- Hb; done).
      split_and!; [tauto|tauto|by right]. }
  destruct (the_matchMedia w) as [mm|] eqn:Hmm.
  2:{ destruct (useEffect_body_inactive p w) as [Hna Hq].
      - intros (_&_&mm&?&_). congruence.
      - split_and!; [|tauto|by right].
        split; [tauto|]. intros (_&_&mm&?&_). congruence. }
  destruct (decide (mq_media mm q_umbrella = "not all")) as [Hm|Hm].
  { destruct (useEffect_body_inactive p w) as [Hna Hq].
    - intros (_&_&mm'&?&?). congruence.
    - split_and!; [|tauto|by right].
      split; [tauto|]. intros (_&_&mm'&?&?). congruence. }
  destruct (useEffect_body_active p w mm Hl Hs Hmm Hm)
    as (w'&E&_&H1&H2&H3&_).
  rewrite E. simpl.
  assert (watcher_active (Returned (Some (cleanup_of p)) w'))
    by (by exists (cleanup_of p)).
  split_and!; [|tauto|by left].
  split; [|done]. intros _. split_and!; [done|by apply Hb|by exists mm].
Qed.

(** ** Channel events *)

Lemma deliver_listeners q ev w :
  deliver q ev w
  = foldl (fun w h => run_handler h ev w) w (listeners_of q (mqls w)).
Proof.
  unfold deliver. generalize (mqls w) as l. intros l. revert w.
  induction l as [|o l IH]; intros w; [done|].
  rewrite listeners_of_cons, foldl_app. simpl. rewrite IH.
  by destruct (decide (mql_query o = q)).
Qed.

Lemma forwarded_handleChangeColorScheme useLS key v w :
  forwarded w (handleChangeColorScheme useLS key v w) = [v].
Proof.
  unfold forwarded, handleChangeColorScheme. simpl.
  destruct (if useLS then localStorage w else None); simpl.
  - rewrite <- app_assoc, drop_app_length. done.
  - rewrite drop_app_length. done.
Qed.

Lemma forwarded_refl w : forwarded w w = [].
Proof. unfold forwarded. by rewrite drop_all. Qed.

(** Mounting over a quiet heap: when the watcher comes up, each channel
    reaches exactly the handler subscribed for it. *)
Lemma mount_active p w :
  quiet w → watcher_active (mount p w) →
  listeners_of q_dark (mqls (world_of (mount p w))) = [dark_handler p] ∧
  listeners_of q_light (mqls (world_of (mount p w))) = [light_handler p] ∧
  listeners_of q_noPreference (mqls (world_of (mount p w))) = [default_handler p].
Proof.
  intros Hq. unfold mount, mbind, M_bind.
  destruct (getInitialColorScheme_Returned (defaultValue p)
              (useLocalStorage (config p)) (localStorageKey (config p)) w)
    as (w1&E1&Hs1&Hl1).
  rewrite E1. intros Ha.
  destruct (useEffect_body_active_inv _ _ Ha) as (Hl&Hs&mm&Hmm&Hm).
  destruct (useEffect_body_active p _ mm Hl Hs Hmm Hm) as (w'&E&_&_&_&_&H).
  rewrite E. simpl. apply H. intros q. simpl.
  by rewrite Hl1, quiet_listeners_of.
Qed.

(** C4. While the watcher is active, a [change] event on a channel reaches
    the update path exactly when its match flag is true; the value forwarded
    is dark on the dark channel, light on the light channel and the
    provider's configured default value on the no-preference channel. With
    the flag false the event changes nothing. *)
Theorem channel_event_forwarding p w ev :
  quiet w → watcher_active (mount p w) →
  let w' := world_of (mount p w) in
  (deliver q_dark ev w' = (if matches ev then update_path p Dark w' else w') ∧
   forwarded w' (deliver q_dark ev w') = (if matches ev then [Dark] else []))
  ∧ (deliver q_light ev w' = (if matches ev then update_path p Light w' else w') ∧
     forwarded w' (deliver q_light ev w') = (if matches ev then [Light] else []))
  ∧ (deliver q_noPreference ev w'
     = (if matches ev then update_path p (defaultValue p) w' else w') ∧
     forwarded w' (deliver q_noPreference ev w')
     = (if matches ev then [defaultValue p] else [])).
Proof.
  intros Hq Ha w'. subst w'.
  destruct (mount_active p w Hq Ha) as (Hd&Hl&Hn).
  rewrite !deliver_listeners, Hd, Hl, Hn. simpl. unfold update_path.
  destruct (matches ev);
    by rewrite ?forwarded_handleChangeColorScheme, ?forwarded_refl.
Qed.

Lemma channel_event_forwarding_witness :
  deliver q_noPreference {| matches := true |}
    (world_of (mount plain_provider (page browser_light None)))
  = update_path plain_provider Light
      (world_of (mount plain_provider (page browser_light None))).
Proof.
  destruct (channel_event_forwarding plain_provider (page browser_light None)
              {| matches := true |}) as (_&_&H&_).
  - unfold quiet. simpl. constructor.
  - exists (cleanup_of plain_provider). vm_compute. reflexivity.
  - exact H.
Defined.

(** ** Teardown *)

(** C5, evaluated in a browser. A provider with no props is mounted on a
    fresh page and torn down. The cleanup returns, yet each channel still
    reaches the handler subscribed at mount: a later dark-channel event with
    a true match flag calls the state setter and turns the cell from light
    to dark. *)
Theorem cleanup_leaves_handlers_subscribed :
  let w0 := page browser_light (Some ∅) in
  let w1 := world_of (mount plain_provider w0) in
  let w2 := world_of (run_cleanup (cleanup_of plain_provider) w1) in
  value_of (mount plain_provider w0) = Some (Some (cleanup_of plain_provider)) ∧
  value_of (run_cleanup (cleanup_of plain_provider) w1) = Some tt ∧
  listeners_of q_dark (mqls w2) = [dark_handler plain_provider] ∧
  listeners_of q_light (mqls w2) = [light_handler plain_provider] ∧
  listeners_of q_noPreference (mqls w2) = [default_handler plain_provider] ∧
  colorScheme w2 = Light ∧
  colorScheme (deliver q_dark {| matches := true |} w2) = Dark ∧
  calls (deliver q_dark {| matches := true |} w2)
  = calls w2 ++ [SetColorScheme Dark].
Proof. vm_compute. repeat split. Qed.

(** In a browser the listeners outlive the cleanup, whatever the provider:
    after teardown each channel still forwards to the update path. *)
Lemma teardown_in_browser p w mm ev :
  quiet w → the_matchMedia w = Some mm → mq_interned mm = false →
  watcher_active (mount p w) →
  let w2 := world_of (run_cleanup (cleanup_of p) (world_of (mount p w))) in
  deliver q_dark ev w2 = (if matches ev then update_path p Dark w2 else w2) ∧
  deliver q_light ev w2 = (if matches ev then update_path p Light w2 else w2) ∧
  deliver q_noPreference ev w2
  = (if matches ev then update_path p (defaultValue p) w2 else w2).
Proof.
  intros Hq Hmm Hi Ha w2. subst w2.
  destruct (mount_active p w Hq Ha) as (Hd&Hl&Hn).
  assert (the_matchMedia (world_of (mount p w)) = Some mm) as Hmm'.
  { unfold mount, mbind, M_bind in *.
    destruct (getInitialColorScheme_Returned (defaultValue p)
                (useLocalStorage (config p)) (localStorageKey (config p)) w)
      as (w1&E1&Hs1&_).
    rewrite E1 in *.
    destruct (useEffect_body_active_inv _ _ Ha) as (Hl'&Hs'&mm'&Hmm'&Hm).
    destruct (useEffect_body_active p _ mm' Hl' Hs' Hmm' Hm) as (w'&E&Hs2&_).
    rewrite E. simpl. rewrite (same_host_matchMedia _ _ Hs2). simpl.
    change (the_matchMedia w1 = Some mm).
    by rewrite (same_host_matchMedia _ _ Hs1). }
  destruct (run_cleanup_browser (cleanup_of p) _ mm Hmm' Hi) as (w2&E2&_&Hl2).
  rewrite E2. simpl.
  rewrite !deliver_listeners, !Hl2, Hd, Hl, Hn. simpl. unfold update_path.
  by destruct (matches ev).
Qed.

(** ** Persistence *)











(** ** The wrapping utility *)

Lemma array_props_pair a b :
  array_props [a; b] = <["0" := a]> (<["1" := b]> ∅).
Proof. reflexivity. Qed.

(** C6, as the code has it. The component returned by [DarkModeConsumer],
    rendered with props [props], renders [Component] with [props] overlaid
    by the own properties of the context array: property ["0"] carries the
    current color scheme and property ["1"] the setter. No property named
    [colorScheme] or [handleChangeColorScheme] is added. *)
Theorem consumer_spreads_context_array {C} (Component : C)
    (props : gmap string JsValue) (nearest : option ContextValue) :
  let value := useContext nearest in
  let e := render_Consumer nearest (DarkModeConsumer Component props) in
  el_type e = Component ∧
  el_props e = <["0" := VString (scheme_string (fst value))]>
                 (<["1" := VFunction (snd value)]> props) ∧
  el_props e !! "colorScheme" = props !! "colorScheme" ∧
  el_props e !! "handleChangeColorScheme" = props !! "handleChangeColorScheme".
Proof.
  intros value e. subst value e.
  unfold render_Consumer, DarkModeConsumer, spread2, context_array. simpl.
  rewrite array_props_pair.
  rewrite <- !insert_union_l, (left_id_L ∅ (∪)).
  split_and!; [done..| |]; by rewrite !lookup_insert_ne.
Qed.

(** C6, as stated, fails: rendered with no props outside a provider, the
    wrapped component receives no property named [colorScheme]; and a
    property ["0"] of the props does not reach the component. *)
Lemma consumer_named_props_refuted :
  ¬ injects_named_props
      (render_Consumer None (DarkModeConsumer tt ∅)) ∅ (useContext None) ∧
  ¬ injects_named_props
      (render_Consumer None (DarkModeConsumer tt {["0" := VBool true]}))
      {["0" := VBool true]} (useContext None).
Proof.
  split.
  - intros (_&H&_). vm_compute in H. discriminate.
  - intros (H&_). rewrite map_subseteq_spec in H.
    specialize (H "0" (VBool true) (lookup_singleton_eq _ _)).
    vm_compute in H. discriminate.
Qed.

(** ** Teardown on a host that interns its list objects

    The cleanup is written for a host where [matchMedia(q)] names one object
    per query: there it finds the objects the effect subscribed to. *)

Lemma listeners_of_absent q l :
  q ∉ mql_query <$> l → listeners_of q l = [].
Proof.
  induction l as [|o l IH]; [done|]. rewrite fmap_cons, not_elem_of_cons.
  intros [Hne Hl]. rewrite listeners_of_cons, decide_False by done.
  by apply IH.
Qed.

Lemma listeners_of_unique q l r o :
  NoDup (mql_query <$> l) → l !! r = Some o → mql_query o = q →
  listeners_of q l = mql_listeners o.
Proof.
  intros Hnd Hr Hq. apply list_elem_of_split_length in Hr as (l1&l2&->&_).
  rewrite fmap_app, fmap_cons, Hq in Hnd.
  apply NoDup_app in Hnd as (_&Hl1&Hl2). apply NoDup_cons in Hl2 as [Hl2 _].
  rewrite listeners_of_app, listeners_of_cons, decide_True by done.
  rewrite (listeners_of_absent q l2 Hl2), app_nil_r.
  rewrite (listeners_of_absent q l1); [done|].
  intros Hin. apply (Hl1 _ Hin). left.
Qed.

Lemma alter_queries f (r : nat) (l : list MediaQueryList) :
  (∀ o, mql_query (f o) = mql_query o) →
  mql_query <$> alter f r l = mql_query <$> l.
Proof.
  intros Hf. rewrite (list_fmap_alter mql_query f id).
  - by apply list_alter_id.
  - apply Forall_forall. intros o _. apply Hf.
Qed.

Lemma filter_ne_singleton (h : Handler) :
  filter (fun h' => h' ≠ h) [h] = [].
Proof. rewrite filter_cons. by destruct (decide (h ≠ h)). Qed.

Section Interning.
Variable mm : MatchMedia.
Hypothesis interned : mq_interned mm = true.

Local Abbreviation inv := (interning_inv mm).

Lemma bind_inv {A B} (m : M A) (k : A → M B) w :
  inv w →
  (∀ w, inv w → inv (world_of (m w))) →
  (∀ a w, inv w → inv (world_of (k a w))) →
  inv (world_of ((m ≫= k) w)).
Proof.
  intros Hw Hm Hk. unfold mbind, M_bind. specialize (Hm w Hw).
  destruct (m w) as [a w1|e w1]; simpl in *; [by apply Hk|done].
Qed.

Lemma window_matchMedia_inv q w :
  inv w → inv (world_of (window_matchMedia q w)).
Proof.
  intros [Hmm Hnd]. unfold window_matchMedia. rewrite Hmm, interned.
  destruct (find_mql q (mqls w)) as [r|] eqn:E; simpl; [done|].
  split; [done|]. unfold one_per_query in *. simpl.
  rewrite fmap_app. apply NoDup_app. split_and!; [done| |apply NoDup_singleton].
  intros x Hx. simpl. rewrite list_elem_of_singleton. intros ->.
  apply list_elem_of_fmap in Hx as (o&Hq&Ho).
  unfold find_mql in E. destruct (list_find _ (mqls w)) eqn:E'; [done|].
  apply list_find_None in E'. rewrite Forall_forall in E'.
  by apply (E' o Ho).
Qed.

Lemma alter_inv f (r : nat) w :
  (∀ o, mql_query (f o) = mql_query o) →
  inv w → inv (set_mqls (alter f r (mqls w)) w).
Proof.
  intros Hf [Hmm Hnd]. split; [done|]. unfold one_per_query. simpl.
  by rewrite alter_queries.
Qed.

Lemma subscribe_inv q h w : inv w → inv (world_of (subscribe q h w)).
Proof.
  intros Hw. apply bind_inv; [done|apply window_matchMedia_inv|].
  intros r w1 Hw1. simpl. by apply alter_inv.
Qed.

Lemma window_matches_inv q w : inv w → inv (world_of (window_matches q w)).
Proof.
  intros Hw. unfold window_matches.
  destruct (window w) as [win|]; [|done].
  destruct (matchMedia win); [|done].
  apply bind_inv; [done|apply window_matchMedia_inv|].
  intros r w1 Hw1. unfold read_matches.
  by destruct (the_matchMedia w1), (mqls w1 !! r).
Qed.

Lemma getInitialColorScheme_inv dflt useLS key w :
  inv w → inv (world_of (getInitialColorScheme dflt useLS key w)).
Proof.
  intros Hw. unfold getInitialColorScheme.
  destruct (match (if useLS then localStorage w else None) with
            | Some store => as_scheme (or_empty (getItem store key))
            | None => None
            end); [done|].
  apply bind_inv; [done|apply window_matches_inv|].
  intros [] w1 Hw1; [done|].
  apply bind_inv; [done|apply window_matches_inv|].
  by intros [] w2 Hw2.
Qed.

Lemma useEffect_body_inv p w : inv w → inv (world_of (useEffect_body p w)).
Proof.
  intros Hw. unfold useEffect_body.
  destruct (listenWindowEvents (config p)
            && negb (useLocalStorage (config p) && truthy (localStorage w))
            && truthy (window w)); [|done].
  apply bind_inv; [done|apply window_matchMedia_inv|].
  intros u w1 Hw1. apply bind_inv; [done| |].
  { intros w2 Hw2. unfold read_media.
    by destruct (the_matchMedia w2), (mqls w2 !! u). }
  intros media w2 Hw2. destruct (decide (media ≠ "not all")); [|done].
  apply bind_inv; [done|apply subscribe_inv|]. intros _ w3 Hw3.
  apply bind_inv; [done|apply subscribe_inv|]. intros _ w4 Hw4.
  apply bind_inv; [done|apply subscribe_inv|]. by intros _ w5 Hw5.
Qed.

Lemma mount_inv p w : inv w → inv (world_of (mount p w)).
Proof.
  intros Hw. apply bind_inv; [done|apply getInitialColorScheme_inv|].
  intros v w1 Hw1. apply bind_inv; [done| |].
  - by intros w2 Hw2.
  - intros _ w2 Hw2. by apply useEffect_body_inv.
Qed.

(** [unsubscribe] reaches the one object of its query and removes the
    handler from it. *)
Lemma unsubscribe_interned q h w :
  inv w →
  ∃ w', unsubscribe q h w = Returned tt w' ∧ inv w' ∧
    listeners_of q (mqls w') = filter (fun h' => h' ≠ h) (listeners_of q (mqls w)) ∧
    (∀ q', q' ≠ q → listeners_of q' (mqls w') = listeners_of q' (mqls w)).
Proof.
  intros Hw. pose proof (window_matchMedia_inv q w Hw) as Hw1.
  destruct Hw as [Hmm Hnd].
  destruct (window_matchMedia_Returned q w mm Hmm)
    as (r&w1&E&Hs&(o&Ho&Hq)&Hl).
  rewrite E in Hw1. simpl in Hw1.
  exists (set_mqls (alter (remove_listener h) r (mqls w1)) w1).
  split_and!.
  - unfold unsubscribe, mbind, M_bind. by rewrite E.
  - by apply alter_inv.
  - simpl. rewrite <- Hl. destruct Hw1 as [_ Hnd1].
    rewrite (listeners_of_unique q (mqls w1) r o Hnd1 Ho Hq).
    apply (listeners_of_unique q _ r (remove_listener h o)).
    + unfold one_per_query in Hnd1. by rewrite alter_queries.
    + by rewrite list_lookup_alter_eq, Ho.
    + done.
  - intros q' Hne. simpl. rewrite <- Hl.
    destruct (listeners_of_alter q' (remove_listener h) r (mqls w1) o Ho)
      as (pre&post&H1&H2); [done|].
    rewrite H1, H2, !decide_False; congruence.
Qed.

(** After teardown no event on any of the three channels reaches a
    handler. *)
Lemma teardown_on_interning_host p w ev :
  quiet w → one_per_query w → the_matchMedia w = Some mm →
  watcher_active (mount p w) →
  let w2 := world_of (run_cleanup (cleanup_of p) (world_of (mount p w))) in
  value_of (run_cleanup (cleanup_of p) (world_of (mount p w))) = Some tt ∧
  deliver q_dark ev w2 = w2 ∧
  deliver q_light ev w2 = w2 ∧
  deliver q_noPreference ev w2 = w2.
Proof.
  intros Hq Hnd Hmm Ha w2. subst w2.
  destruct (mount_active p w Hq Ha) as (Hd&Hl&Hn).
  assert (inv (world_of (mount p w))) as Hi by by apply mount_inv.
  pose proof q_dark_light. pose proof q_dark_noPreference.
  pose proof q_light_noPreference.
  destruct (unsubscribe_interned q_dark (dark_handler p) _ Hi)
    as (w1&E1&Hi1&Hq1&Ho1).
  destruct (unsubscribe_interned q_light (light_handler p) _ Hi1)
    as (w2&E2&Hi2&Hq2&Ho2).
  destruct (unsubscribe_interned q_noPreference (default_handler p) _ Hi2)
    as (w3&E3&Hi3&Hq3&Ho3).
  assert (run_cleanup (cleanup_of p) (world_of (mount p w)) = Returned tt w3)
    as ->.
  { unfold run_cleanup, mbind, M_bind. simpl. by rewrite E1, E2, E3. }
  simpl. rewrite !deliver_listeners.
  rewrite Ho3, Ho2, Hq1, Hd by done.
  rewrite Ho3, Hq2, Ho1, Hl by done.
  rewrite Hq3, Ho2, Ho1, Hn by done.
  by rewrite !filter_ne_singleton.
Qed.
End Interning.

(** * Further properties of the code *)

(** ** Worlds an operation passes through *)

Lemma bind_world_of (P : World → Prop) {A B} (m : M A) (k : A → M B) w :
  P w →
  (∀ w, P w → P (world_of (m w))) →
  (∀ a w, P w → P (world_of (k a w))) →
  P (world_of ((m ≫= k) w)).
Proof.
  intros Hw Hm Hk. unfold mbind, M_bind. specialize (Hm w Hw).
  destruct (m w) as [a w1|e w1]; simpl in *; [by apply Hk|done].
Qed.

Lemma window_matchMedia_same_host w0 q w :
  same_host w0 w → same_host w0 (world_of (window_matchMedia q w)).
Proof.
  intros Hs. unfold window_matchMedia.
  destruct (the_matchMedia w) as [mm|]; [|done].
  destruct (if mq_interned mm then find_mql q (mqls w) else None); [done|].
  simpl. eapply same_host_trans; [done|apply same_host_set_mqls].
Qed.

Lemma subscribe_same_host w0 q h w :
  same_host w0 w → same_host w0 (world_of (subscribe q h w)).
Proof.
  intros Hs.
  apply (bind_world_of (same_host w0)); [done| |].
  - intros w1. apply window_matchMedia_same_host.
  - intros r w1 Hw1. simpl.
    eapply same_host_trans; [done|apply same_host_set_mqls].
Qed.

Lemma unsubscribe_same_host w0 q h w :
  same_host w0 w → same_host w0 (world_of (unsubscribe q h w)).
Proof.
  intros Hs.
  apply (bind_world_of (same_host w0)); [done| |].
  - intros w1. apply window_matchMedia_same_host.
  - intros r w1 Hw1. simpl.
    eapply same_host_trans; [done|apply same_host_set_mqls].
Qed.

Lemma useEffect_body_same_host p w :
  same_host w (world_of (useEffect_body p w)).
Proof.
  unfold useEffect_body.
  destruct (listenWindowEvents (config p)
            && negb (useLocalStorage (config p) && truthy (localStorage w))
            && truthy (window w)); [|apply same_host_refl].
  apply (bind_world_of (same_host w)); [apply same_host_refl| |].
  { intros w1. apply window_matchMedia_same_host. }
  intros u w1 Hw1. apply (bind_world_of (same_host w)); [done| |].
  { intros w2 Hw2. unfold read_media.
    by destruct (the_matchMedia w2), (mqls w2 !! u). }
  intros media w2 Hw2. destruct (decide (media ≠ "not all")); [|done].
  apply (bind_world_of (same_host w));
    [done|intros w3; apply subscribe_same_host|]. intros _ w3 Hw3.
  apply (bind_world_of (same_host w));
    [done|intros w4; apply subscribe_same_host|]. intros _ w4 Hw4.
  apply (bind_world_of (same_host w));
    [done|intros w5; apply subscribe_same_host|]. by intros _ w5 Hw5.
Qed.

Lemma run_cleanup_same_host c w :
  same_host w (world_of (run_cleanup c w)).
Proof.
  apply (bind_world_of (same_host w));
    [apply same_host_refl|intros w1; apply unsubscribe_same_host|].
  intros _ w1 Hw1.
  apply (bind_world_of (same_host w));
    [done|intros w2; apply unsubscribe_same_host|].
  intros _ w2 Hw2. by apply unsubscribe_same_host.
Qed.

(** The world in which a mount runs its effect. *)
Lemma mount_unfold p w :
  ∃ w1, same_host w w1 ∧
    (∀ q, listeners_of q (mqls w1) = listeners_of q (mqls w)) ∧
    mount p w
    = useEffect_body p
        (set_colorScheme
           (resolveInitial_spec (defaultValue p) (useLocalStorage (config p))
              (localStorageKey (config p)) w) w1).
Proof.
  destruct (getInitialColorScheme_Returned (defaultValue p)
              (useLocalStorage (config p)) (localStorageKey (config p)) w)
    as (w1&E1&Hs1&Hl1).
  exists w1. split_and!; [done..|].
  unfold mount, mbind, M_bind. by rewrite E1.
Qed.

(** ** The resolver and the mount *)

(** X1. Without [useLocalStorage] the resolver does not look at the store:
    its result is the same whatever the store holds and whatever the key. *)
Theorem resolver_ignores_store_when_disabled dflt key key' store w :
  value_of (getInitialColorScheme dflt false key (set_localStorage store w))
  = value_of (getInitialColorScheme dflt false key' w).
Proof. by rewrite !getInitialColorScheme_value. Qed.

(** X2. Mounting seeds the state cell with the resolved scheme and neither
    writes the store nor calls the update path, whether or not the effect
    subscribes and even when it throws. *)
Theorem mount_seeds_cell p w :
  colorScheme (world_of (mount p w))
  = resolveInitial_spec (defaultValue p) (useLocalStorage (config p))
      (localStorageKey (config p)) w ∧
  localStorage (world_of (mount p w)) = localStorage w ∧
  window (world_of (mount p w)) = window w ∧
  calls (world_of (mount p w)) = calls w.
Proof.
  destruct (mount_unfold p w) as (w1&(Hl&Hw&Hc&Hk)&_&->).
  destruct (useEffect_body_same_host p
              (set_colorScheme
                 (resolveInitial_spec (defaultValue p)
                    (useLocalStorage (config p))
                    (localStorageKey (config p)) w) w1))
    as (Hl'&Hw'&Hc'&Hk').
  simpl in *. split_and!; congruence.
Qed.

(** On a window with [matchMedia] the effect returns. *)
Lemma useEffect_body_Returned p w mm :
  the_matchMedia w = Some mm → is_Some (value_of (useEffect_body p w)).
Proof.
  intros Hmm.
  destruct (decide (listenWindowEvents (config p) = true ∧
                    useLocalStorage (config p) && truthy (localStorage w) = false ∧
                    mq_media mm q_umbrella ≠ "not all")) as [(Hl&Hs&Hm)|Hn].
  - destruct (useEffect_body_active p w mm Hl Hs Hmm Hm) as (w'&E&_).
    rewrite E. simpl. eauto.
  - unfold useEffect_body.
    destruct (listenWindowEvents (config p)); simpl; [|eauto].
    destruct (useLocalStorage (config p) && truthy (localStorage w));
      simpl; [eauto|].
    rewrite (the_matchMedia_window _ _ Hmm).
    destruct (window_matchMedia_Returned q_umbrella w mm Hmm)
      as (u&w0&E0&Hs0&(o&Ho&Hq)&Hl0).
    assert (the_matchMedia w0 = Some mm) as Hmm0
      by by rewrite (same_host_matchMedia _ _ Hs0).
    unfold mbind, M_bind, mret, M_ret.
    rewrite E0, (read_media_Returned _ _ _ _ Hmm0 Ho), Hq.
    destruct (decide (mq_media mm q_umbrella ≠ "not all")) as [Hm|Hm];
      [|simpl; eauto].
    destruct Hn. by split_and!.
Qed.

Lemma useEffect_body_throws_iff p w :
  value_of (useEffect_body p w) = None ↔
  listenWindowEvents (config p) = true ∧
  useLocalStorage (config p) && truthy (localStorage w) = false ∧
  truthy (window w) = true ∧
  the_matchMedia w = None.
Proof.
  destruct (the_matchMedia w) as [mm|] eqn:Hmm.
  - destruct (useEffect_body_Returned p w mm Hmm) as [c Hc].
    rewrite Hc. split; [done|]. by intros (_&_&_&?).
  - unfold useEffect_body.
    destruct (listenWindowEvents (config p)); simpl;
      [|split; [done|by intros (?&_)]].
    destruct (useLocalStorage (config p) && truthy (localStorage w)); simpl;
      [split; [done|by intros (_&?&_)]|].
    destruct (truthy (window w)); simpl;
      [|split; [done|by intros (_&_&?&_)]].
    unfold mbind, M_bind. by rewrite (window_matchMedia_Thrown _ _ Hmm).
Qed.

(** On a host whose globals can be read, mounting throws exactly when the
    provider listens to window events, persistence is not in effect, and the
    window is there but has no [matchMedia]: the effect calls
    [window.matchMedia] without the guard the resolver has. *)
Lemma mount_throws_readable p w :
  value_of (mount p w) = None ↔
  listenWindowEvents (config p) = true ∧
  useLocalStorage (config p) && truthy (localStorage w) = false ∧
  truthy (window w) = true ∧
  the_matchMedia w = None.
Proof.
  destruct (mount_unfold p w) as (w1&Hs&_&->).
  rewrite useEffect_body_throws_iff.
  change (the_matchMedia (set_colorScheme _ w1)) with (the_matchMedia w1).
  rewrite (same_host_matchMedia _ _ Hs). simpl.
  destruct Hs as (->&->&_). done.
Qed.

(** ** Events *)

Lemma run_handler_unmatched h w : run_handler h {| matches := false |} w = w.
Proof. by destruct h. Qed.

(** X5. A [change] event whose match flag is false changes nothing, whatever
    listeners are registered and whoever registered them. *)
Theorem unmatched_event_changes_nothing q w :
  deliver q {| matches := false |} w = w.
Proof.
  rewrite deliver_listeners.
  induction (listeners_of q (mqls w)) as [|h l IH]; [done|].
  simpl. by rewrite run_handler_unmatched.
Qed.

(** X6. A provider that does not listen to window events, or for which
    persistence is in effect, subscribes nothing at mount: on a heap
    without other listeners every later OS event, matching or not, leaves
    the state cell, the store and the call log as they were. *)
Theorem ineligible_provider_ignores_events p w q ev :
  quiet w →
  listenWindowEvents (config p)
  && negb (useLocalStorage (config p) && truthy (localStorage w)) = false →
  value_of (mount p w) = Some None ∧
  deliver q ev (world_of (mount p w)) = world_of (mount p w).
Proof.
  intros Hq Hc. destruct (mount_unfold p w) as (w1&Hs&Hl&->).
  unfold useEffect_body. simpl.
  destruct Hs as (->&_). rewrite Hc. simpl. split; [done|].
  rewrite deliver_listeners. simpl. by rewrite Hl, quiet_listeners_of.
Qed.

Lemma ineligible_provider_ignores_events_witness :
  deliver q_dark {| matches := true |}
    (world_of (mount persisting_provider (page browser_light (Some ∅))))
  = world_of (mount persisting_provider (page browser_light (Some ∅))).
Proof.
  destruct (ineligible_provider_ignores_events persisting_provider
              (page browser_light (Some ∅)) q_dark {| matches := true |})
    as [_ H].
  - unfold quiet. simpl. constructor.
  - reflexivity.
  - exact H.
Defined.

(** ** The state cell and the store over sequences of operations *)

Lemma forwarded_app w w' new :
  calls w' = calls w ++ new → forwarded w w' = updates new.
Proof. intros H. unfold forwarded. by rewrite H, drop_app_length. Qed.



Lemma handleChangeColorScheme_tracks useLS key v w :
  tracks w (handleChangeColorScheme useLS key v w).
Proof.
  unfold handleChangeColorScheme. simpl.
  destruct (if useLS then localStorage w else None);
    (split_and!; [done..|]); eexists; (split; [simpl|]).
  - by rewrite <- app_assoc.
  - done.
  - done.
  - done.
Qed.




















(** X10. The update path does not compare with the current value: setting
    the same value twice in a row makes the same calls twice (state setter,
    and write-through when persistence is in effect) and leaves the state
    cell and the store as after the first call. *)
Theorem set_is_not_deduplicated p v w :
  let w1 := update_path p v w in
  let w2 := update_path p v w1 in
  calls w2 = calls w1 ++ drop (length (calls w)) (calls w1) ∧
  forwarded w w2 = [v; v] ∧
  colorScheme w2 = colorScheme w1 ∧
  localStorage w2 = localStorage w1 ∧
  mqls w2 = mqls w1.
Proof.
  intros w1 w2. subst w1 w2. unfold update_path, forwarded.
  destruct (useLocalStorage (config p) && truthy (localStorage w)) eqn:E.
  - apply andb_true_iff in E as [Hu Ht]. rewrite Hu.
    destruct (localStorage w) as [store|] eqn:Hs; [|done].
    rewrite (handleChangeColorScheme_enabled _ _ _ _ Hs).
    erewrite handleChangeColorScheme_enabled by done. simpl.
    rewrite insert_insert_eq, <- !app_assoc, !drop_app_length. done.
  - rewrite (handleChangeColorScheme_disabled _ _ _ _ E).
    erewrite handleChangeColorScheme_disabled by done. simpl.
    rewrite <- !app_assoc, !drop_app_length. done.
Qed.

(** ** The read surfaces *)

(** X11. The wrapped component receives every property of its props other
    than ["0"] and ["1"] unchanged, and its property names are those of the
    props together with ["0"] and ["1"]. *)
Theorem consumer_passes_other_props {C} (Component : C)
    (props : gmap string JsValue) (nearest : option ContextValue) (k : string) :
  k ≠ "0" → k ≠ "1" →
  el_props (render_Consumer nearest (DarkModeConsumer Component props)) !! k
  = props !! k ∧
  dom (el_props (render_Consumer nearest (DarkModeConsumer Component props)))
  = {["0"; "1"]} ∪ dom props.
Proof.
  intros H0 H1.
  unfold render_Consumer, DarkModeConsumer, spread2, context_array. simpl.
  rewrite array_props_pair, <- !insert_union_l, (left_id_L ∅ (∪)).
  split.
  - by rewrite !lookup_insert_ne.
  - by rewrite !dom_insert_L, (assoc_L (∪)).
Qed.

Lemma consumer_passes_other_props_witness :
  el_props (render_Consumer None
              (DarkModeConsumer tt {["title" := VString "t"]})) !! "title"
  = Some (VString "t").
Proof.
  destruct (consumer_passes_other_props tt {["title" := VString "t"]} None
              "title") as [H _].
  - discriminate.
  - discriminate.
  - rewrite H. reflexivity.
Defined.

(** ** Re-running the effect when a dependency changes *)

Lemma mount_localStorage p w :
  localStorage (world_of (mount p w)) = localStorage w.
Proof.
  destruct (mount_unfold p w) as (w1&(Hs&_)&_&->).
  destruct (useEffect_body_same_host p
              (set_colorScheme
                 (resolveInitial_spec (defaultValue p)
                    (useLocalStorage (config p))
                    (localStorageKey (config p)) w) w1)) as (Hl&_).
  simpl in Hl. congruence.
Qed.

(** What made the watcher come up at mount. *)
Lemma mount_active_inv p w :
  watcher_active (mount p w) →
  listenWindowEvents (config p) = true ∧
  useLocalStorage (config p) && truthy (localStorage w) = false ∧
  ∃ mm, the_matchMedia w = Some mm ∧ mq_media mm q_umbrella ≠ "not all".
Proof.
  destruct (mount_unfold p w) as (w1&Hs&_&->). intros Ha.
  destruct (useEffect_body_active_inv _ _ Ha) as (Hl&Hp&mm&Hmm&Hm).
  simpl in Hp. change (the_matchMedia w1 = Some mm) in Hmm.
  rewrite (same_host_matchMedia _ _ Hs) in Hmm.
  destruct Hs as (Hls&_). rewrite Hls in Hp. eauto.
Qed.

(** The effect over channels that reach no listener yet. *)
Lemma useEffect_body_active_channels p w mm :
  listenWindowEvents (config p) = true →
  useLocalStorage (config p) && truthy (localStorage w) = false →
  the_matchMedia w = Some mm →
  mq_media mm q_umbrella ≠ "not all" →
  listeners_of q_dark (mqls w) = [] →
  listeners_of q_light (mqls w) = [] →
  listeners_of q_noPreference (mqls w) = [] →
  ∃ w', useEffect_body p w = Returned (Some (cleanup_of p)) w' ∧
    listeners_of q_dark (mqls w') = [dark_handler p] ∧
    listeners_of q_light (mqls w') = [light_handler p] ∧
    listeners_of q_noPreference (mqls w') = [default_handler p].
Proof.
  intros Hl Hs Hmm Hmedia Hd0 Hl0 Hn0.
  destruct (window_matchMedia_Returned q_umbrella w mm Hmm)
    as (u&w0&E0&Hs0&(o&Ho&Hq)&Hu).
  assert (the_matchMedia w0 = Some mm) as Hmm0
    by by rewrite (same_host_matchMedia _ _ Hs0).
  destruct (subscribe_Returned q_dark (dark_handler p) w0 mm Hmm0)
    as (w1&E1&Hs1&Ho1&_&_&Hq1).
  assert (the_matchMedia w1 = Some mm) as Hmm1
    by by rewrite (same_host_matchMedia _ _ Hs1).
  destruct (subscribe_Returned q_light (light_handler p) w1 mm Hmm1)
    as (w2&E2&Hs2&Ho2&_&_&Hq2).
  assert (the_matchMedia w2 = Some mm) as Hmm2
    by by rewrite (same_host_matchMedia _ _ Hs2).
  destruct (subscribe_Returned q_noPreference (default_handler p) w2 mm Hmm2)
    as (w3&E3&Hs3&Ho3&_&_&Hq3).
  pose proof q_dark_light. pose proof q_dark_noPreference.
  pose proof q_light_noPreference.
  exists w3. split_and!.
  - unfold useEffect_body.
    rewrite Hl, Hs, (the_matchMedia_window _ _ Hmm). simpl.
    unfold mbind, M_bind, mret, M_ret.
    rewrite E0, (read_media_Returned _ _ _ _ Hmm0 Ho), Hq.
    rewrite decide_True by done. by rewrite E1, E2, E3.
  - rewrite Ho3, Ho2, Hq1 by (done || by rewrite Hu). done.
  - rewrite Ho3, Hq2 by (done || by rewrite Ho1, Hu). done.
  - rewrite Hq3 by (done || by rewrite Ho2, Ho1, Hu). done.
Qed.

Section Resubscribe.
Variable mm : MatchMedia.
Hypothesis interned : mq_interned mm = true.

(** X13. On a host with one list object per query, a render that changes a
    dependency of the effect (the default value, the key or a flag) while
    the provider stays eligible replaces the subscriptions: afterwards each
    channel reaches the new handler and only it, so no handler closing over
    the old props is left. *)
Theorem rerender_replaces_handlers p p' w :
  quiet w → one_per_query w → the_matchMedia w = Some mm →
  watcher_active (mount p w) →
  effect_deps p ≠ effect_deps p' →
  listenWindowEvents (config p') = true →
  useLocalStorage (config p') && truthy (localStorage w) = false →
  let o := rerender (Some (cleanup_of p)) p p' (world_of (mount p w)) in
  value_of o = Some (Some (cleanup_of p')) ∧
  listeners_of q_dark (mqls (world_of o)) = [dark_handler p'] ∧
  listeners_of q_light (mqls (world_of o)) = [light_handler p'] ∧
  listeners_of q_noPreference (mqls (world_of o)) = [default_handler p'].
Proof.
  intros Hq Hnd Hmm Ha Hdeps Hl' Hp' o. subst o.
  destruct (mount_active p w Hq Ha) as (Hd&Hl&Hn).
  destruct (mount_active_inv p w Ha) as (_&_&mm'&Hmm'&Hm).
  assert (mm' = mm) as -> by congruence.
  assert (interning_inv mm (world_of (mount p w))) as Hi
    by (by apply mount_inv).
  pose proof q_dark_light. pose proof q_dark_noPreference.
  pose proof q_light_noPreference.
  destruct (unsubscribe_interned mm interned q_dark (dark_handler p) _ Hi)
    as (w1&E1&Hi1&Hq1&Ho1).
  destruct (unsubscribe_interned mm interned q_light (light_handler p) _ Hi1)
    as (w2&E2&Hi2&Hq2&Ho2).
  destruct (unsubscribe_interned mm interned q_noPreference
              (default_handler p) _ Hi2) as (w3&E3&Hi3&Hq3&Ho3).
  assert (Hc : run_cleanup (cleanup_of p) (world_of (mount p w)) = Returned tt w3).
  { unfold run_cleanup, mbind, M_bind. simpl. by rewrite E1, E2, E3. }
  pose proof (run_cleanup_same_host (cleanup_of p) (world_of (mount p w))) as Hsc.
  rewrite Hc in Hsc. simpl in Hsc.
  assert (localStorage w3 = localStorage w) as Hls.
  { destruct Hsc as (->&_). apply mount_localStorage. }
  destruct Hi3 as [Hmm3 _].
  destruct (useEffect_body_active_channels p' w3 mm Hl') as (w4&E4&H4);
    [by rewrite Hls|done|done| | | |].
  - rewrite Ho3, Ho2, Hq1, Hd by done. apply filter_ne_singleton.
  - rewrite Ho3, Hq2, Ho1, Hl by done. apply filter_ne_singleton.
  - rewrite Hq3, Ho2, Ho1, Hn by done. apply filter_ne_singleton.
  - unfold rerender. rewrite decide_False by done.
    unfold unmount, mbind, M_bind. rewrite Hc, E4. done.
Qed.
End Resubscribe.

Lemma rerender_replaces_handlers_witness :
  listeners_of q_noPreference
    (mqls (world_of
             (rerender (Some (cleanup_of plain_provider)) plain_provider
                (DarkModeProvider_props (Some Dark) None)
                (world_of (mount plain_provider (page interning_light None))))))
  = [handleSetDefaultColorScheme Dark false "__userColorScheme"].
Proof.
  destruct (rerender_replaces_handlers interning_light eq_refl plain_provider
              (DarkModeProvider_props (Some Dark) None)
              (page interning_light None)) as (_&_&_&H).
  - unfold quiet. simpl. constructor.
  - unfold one_per_query. simpl. constructor.
  - reflexivity.
  - exists (cleanup_of plain_provider). vm_compute. reflexivity.
  - intros H. vm_compute in H. discriminate.
  - reflexivity.
  - reflexivity.
  - exact H.
Defined.

(** In a browser each [subscribe] builds an object of its own. *)
Lemma subscribe_browser q h w mm :
  the_matchMedia w = Some mm → mq_interned mm = false →
  ∃ w', subscribe q h w = Returned tt w' ∧ same_host w w' ∧
    ∀ q', listeners_of q' (mqls w')
          = listeners_of q' (mqls w) ++ (if decide (q = q') then [h] else []).
Proof.
  intros H1 H2. eexists. split_and!.
  - unfold subscribe, mbind, M_bind.
    by rewrite (window_matchMedia_browser q w mm H1 H2).
  - by repeat split.
  - intros q'. simpl.
    rewrite alter_app_r_alt, Nat.sub_diag by done. simpl.
    rewrite listeners_of_app, listeners_of_cons. simpl.
    destruct (decide (h ∈ [])) as [Hin|_];
      [by apply not_elem_of_nil in Hin|].
    by destruct (decide (q = q')).
Qed.

Lemma useEffect_body_browser p w mm :
  listenWindowEvents (config p) = true →
  useLocalStorage (config p) && truthy (localStorage w) = false →
  the_matchMedia w = Some mm → mq_interned mm = false →
  mq_media mm q_umbrella ≠ "not all" →
  ∃ w', useEffect_body p w = Returned (Some (cleanup_of p)) w' ∧
    listeners_of q_dark (mqls w')
    = listeners_of q_dark (mqls w) ++ [dark_handler p] ∧
    listeners_of q_light (mqls w')
    = listeners_of q_light (mqls w) ++ [light_handler p] ∧
    listeners_of q_noPreference (mqls w')
    = listeners_of q_noPreference (mqls w) ++ [default_handler p].
Proof.
  intros Hl Hs Hmm Hi Hmedia.
  destruct (window_matchMedia_Returned q_umbrella w mm Hmm)
    as (u&w0&E0&Hs0&(o&Ho&Hq)&Hu).
  assert (the_matchMedia w0 = Some mm) as Hmm0
    by by rewrite (same_host_matchMedia _ _ Hs0).
  destruct (subscribe_browser q_dark (dark_handler p) w0 mm Hmm0 Hi)
    as (w1&E1&Hs1&Hq1).
  assert (the_matchMedia w1 = Some mm) as Hmm1
    by by rewrite (same_host_matchMedia _ _ Hs1).
  destruct (subscribe_browser q_light (light_handler p) w1 mm Hmm1 Hi)
    as (w2&E2&Hs2&Hq2).
  assert (the_matchMedia w2 = Some mm) as Hmm2
    by by rewrite (same_host_matchMedia _ _ Hs2).
  destruct (subscribe_browser q_noPreference (default_handler p) w2 mm Hmm2 Hi)
    as (w3&E3&Hs3&Hq3).
  exists w3. split_and!.
  - unfold useEffect_body.
    rewrite Hl, Hs, (the_matchMedia_window _ _ Hmm). simpl.
    unfold mbind, M_bind, mret, M_ret.
    rewrite E0, (read_media_Returned _ _ _ _ Hmm0 Ho), Hq.
    rewrite decide_True by done. by rewrite E1, E2, E3.
  - rewrite Hq3, Hq2, Hq1, Hu.
    repeat case_decide; try discriminate; try done. by rewrite !app_nil_r.
  - rewrite Hq3, Hq2, Hq1, Hu.
    repeat case_decide; try discriminate; try done. by rewrite !app_nil_r.
  - rewrite Hq3, Hq2, Hq1, Hu.
    repeat case_decide; try discriminate; try done. by rewrite !app_nil_r.
Qed.

Lemma forwarded_after_handleChangeColorScheme useLS key v w w1 :
  (∃ new, calls w1 = calls w ++ new) →
  forwarded w (handleChangeColorScheme useLS key v w1) = forwarded w w1 ++ [v].
Proof.
  intros [new Hc]. rewrite (forwarded_app _ _ _ Hc).
  destruct (handleChangeColorScheme_tracks useLS key v w1) as (_&_&new'&Hc'&_).
  rewrite Hc, <- app_assoc in Hc'. rewrite (forwarded_app _ _ _ Hc').
  unfold updates. rewrite omap_app. f_equal.
  pose proof (forwarded_handleChangeColorScheme useLS key v w1) as Hf.
  destruct (handleChangeColorScheme_tracks useLS key v w1) as (_&_&new''&Hc''&_).
  rewrite (forwarded_app _ _ _ Hc'') in Hf.
  rewrite Hc, <- app_assoc in Hc''. rewrite Hc' in Hc''.
  apply app_inv_head in Hc''. apply app_inv_head in Hc''. by subst.
Qed.

(** X14. In a browser the same render adds to the subscriptions instead of
    replacing them: the cleanup removes nothing, so each channel reaches
    first the handler of the old props and then the one of the new props.
    A matching no-preference event then runs the update path twice, with the
    old default value and then with the new one. *)
Theorem rerender_in_browser_adds_handlers p p' w mm :
  quiet w → the_matchMedia w = Some mm → mq_interned mm = false →
  watcher_active (mount p w) →
  effect_deps p ≠ effect_deps p' →
  listenWindowEvents (config p') = true →
  useLocalStorage (config p') && truthy (localStorage w) = false →
  let o := rerender (Some (cleanup_of p)) p p' (world_of (mount p w)) in
  value_of o = Some (Some (cleanup_of p')) ∧
  listeners_of q_dark (mqls (world_of o)) = [dark_handler p; dark_handler p'] ∧
  listeners_of q_light (mqls (world_of o)) = [light_handler p; light_handler p'] ∧
  listeners_of q_noPreference (mqls (world_of o))
  = [default_handler p; default_handler p'] ∧
  forwarded (world_of o)
    (deliver q_noPreference {| matches := true |} (world_of o))
  = [defaultValue p; defaultValue p'].
Proof.
  intros Hq Hmm Hi Ha Hdeps Hl' Hp' o. subst o.
  destruct (mount_active p w Hq Ha) as (Hd&Hl&Hn).
  destruct (mount_active_inv p w Ha) as (_&_&mm'&Hmm'&Hm).
  assert (mm' = mm) as -> by congruence.
  assert (the_matchMedia (world_of (mount p w)) = Some mm) as Hmm1.
  { destruct (mount_unfold p w) as (w1&Hs&_&->).
    rewrite (same_host_matchMedia _ _ (useEffect_body_same_host p _)).
    change (the_matchMedia w1 = Some mm).
    by rewrite (same_host_matchMedia _ _ Hs). }
  destruct (run_cleanup_browser (cleanup_of p) _ mm Hmm1 Hi) as (w2&E2&Hs2&Hl2).
  assert (the_matchMedia w2 = Some mm) as Hmm2
    by by rewrite (same_host_matchMedia _ _ Hs2).
  assert (localStorage w2 = localStorage w) as Hls.
  { destruct Hs2 as (->&_). apply mount_localStorage. }
  destruct (useEffect_body_browser p' w2 mm Hl') as (w3&E3&Hd3&Hl3&Hn3);
    [by rewrite Hls|done..|].
  assert (rerender (Some (cleanup_of p)) p p' (world_of (mount p w))
          = Returned (Some (cleanup_of p')) w3) as ->.
  { unfold rerender. rewrite decide_False by done.
    unfold unmount, mbind, M_bind. by rewrite E2, E3. }
  simpl. rewrite Hd3, Hl3, Hn3, !Hl2, Hd, Hl, Hn.
  split_and!; [done..|].
  rewrite deliver_listeners, Hn3, Hl2, Hn. simpl.
  rewrite forwarded_after_handleChangeColorScheme.
  - by rewrite forwarded_handleChangeColorScheme.
  - destruct (handleChangeColorScheme_tracks (useLocalStorage (config p))
                (localStorageKey (config p)) (defaultValue p) w3)
      as (_&_&new&Hc&_). eauto.
Qed.

Lemma rerender_in_browser_adds_handlers_witness :
  forwarded
    (world_of
       (rerender (Some (cleanup_of plain_provider)) plain_provider
          (DarkModeProvider_props (Some Dark) None)
          (world_of (mount plain_provider (page browser_light None)))))
    (deliver q_noPreference {| matches := true |}
       (world_of
          (rerender (Some (cleanup_of plain_provider)) plain_provider
             (DarkModeProvider_props (Some Dark) None)
             (world_of (mount plain_provider (page browser_light None))))))
  = [Light; Dark].
Proof.
  destruct (rerender_in_browser_adds_handlers plain_provider
              (DarkModeProvider_props (Some Dark) None)
              (page browser_light None) browser_light) as (_&_&_&_&H).
  - unfold quiet. simpl. constructor.
  - reflexivity.
  - reflexivity.
  - exists (cleanup_of plain_provider). vm_compute. reflexivity.
  - intros H. vm_compute in H. discriminate.
  - reflexivity.
  - reflexivity.
  - exact H.
Defined.

(** ** Props left out *)

Lemma mount_colorScheme p w :
  colorScheme (world_of (mount p w))
  = resolveInitial_spec (defaultValue p) (useLocalStorage (config p))
      (localStorageKey (config p)) w.
Proof.
  destruct (mount_unfold p w) as (w1&_&_&->).
  destruct (useEffect_body_same_host p
              (set_colorScheme
                 (resolveInitial_spec (defaultValue p)
                    (useLocalStorage (config p))
                    (localStorageKey (config p)) w) w1)) as (_&_&Hc&_).
  by rewrite Hc.
Qed.

(** X15. A provider whose props leave out [useLocalStorage] and
    [listenWindowEvents] follows the OS and never persists: the initial
    scheme is the OS choice, or the default value ([light] if that prop is
    left out too); the watcher comes up at mount exactly when the host
    understands the umbrella query, whatever the store; and the update path
    never writes the store. *)
Theorem omitted_props_defaults dflt cfg w :
  cfg ≫= cfg_useLocalStorage = None →
  cfg ≫= cfg_listenWindowEvents = None →
  let p := DarkModeProvider_props dflt cfg in
  colorScheme (world_of (mount p w))
  = default (default Light dflt) (os_choice w) ∧
  (watcher_active (mount p w) ↔ os_query_supported w) ∧
  ∀ v w', localStorage (update_path p v w') = localStorage w'.
Proof.
  intros Hu Hl p.
  assert (useLocalStorage (config p) = false) as Hu'.
  { subst p. destruct cfg as [[? ? [?|]]|]; by simplify_eq/=. }
  assert (listenWindowEvents (config p) = true) as Hl'.
  { subst p. destruct cfg as [[? [?|] ?]|]; by simplify_eq/=. }
  split_and!.
  - rewrite mount_colorScheme, Hu'. unfold resolveInitial_spec. simpl.
    by destruct (os_choice w).
  - split.
    + intros Ha. destruct (mount_active_inv p w Ha) as (_&_&mm&?&?).
      by exists mm.
    + intros (mm&Hmm&Hm). destruct (mount_unfold p w) as (w1&Hs&_&->).
      destruct (useEffect_body_active p
                  (set_colorScheme
                     (resolveInitial_spec (defaultValue p)
                        (useLocalStorage (config p))
                        (localStorageKey (config p)) w) w1) mm)
        as (w'&E&_); [done|by rewrite Hu'| |done|].
      * change (the_matchMedia w1 = Some mm).
        by rewrite (same_host_matchMedia _ _ Hs).
      * rewrite E. by eexists.
  - intros v w'. unfold update_path. rewrite Hu'.
    by rewrite handleChangeColorScheme_disabled.
Qed.

Lemma omitted_props_defaults_witness :
  colorScheme (world_of (mount (DarkModeProvider_props None None)
                           (page browser_light (Some {["__userColorScheme" := "dark"]}))))
  = Light.
Proof.
  destruct (omitted_props_defaults None None
              (page browser_light (Some {["__userColorScheme" := "dark"]})))
    as (H&_).
  - reflexivity.
  - reflexivity.
  - rewrite H. reflexivity.
Defined.

(** ** Teardown where list objects are shared *)

(** X16. On a host with one list object per query, tearing the provider
    down after a mount that activated the watcher removes the three
    subscriptions: the cleanup returns, and afterwards no event on the dark,
    light or no-preference channel changes anything. *)
Theorem teardown_removes_handlers_when_interned mm p w ev :
  mq_interned mm = true →
  quiet w → one_per_query w → the_matchMedia w = Some mm →
  watcher_active (mount p w) →
  let w2 := world_of (unmount (value_of (mount p w) ≫= id) (world_of (mount p w))) in
  deliver q_dark ev w2 = w2 ∧
  deliver q_light ev w2 = w2 ∧
  deliver q_noPreference ev w2 = w2.
Proof.
  intros Hi Hq Hnd Hmm Ha w2. subst w2.
  assert (value_of (mount p w) = Some (Some (cleanup_of p))) as ->.
  { destruct (mount_unfold p w) as (w1&Hs&_&E). rewrite E in *.
    destruct (useEffect_body_active_inv _ _ Ha) as (Hl&Hp&mm'&Hmm'&Hm).
    destruct (useEffect_body_active p _ mm' Hl Hp Hmm' Hm) as (w'&E'&_).
    by rewrite E'. }
  simpl.
  destruct (teardown_on_interning_host mm Hi p w ev Hq Hnd Hmm Ha)
    as (_&H1&H2&H3).
  done.
Qed.

Lemma teardown_removes_handlers_when_interned_witness :
  deliver q_dark {| matches := true |}
    (world_of (unmount (value_of (mount plain_provider (page interning_light None)) ≫= id)
                 (world_of (mount plain_provider (page interning_light None)))))
  = world_of (unmount (value_of (mount plain_provider (page interning_light None)) ≫= id)
                (world_of (mount plain_provider (page interning_light None)))).
Proof.
  destruct (teardown_removes_handlers_when_interned interning_light
              plain_provider (page interning_light None)
              {| matches := true |}) as (H&_).
  - reflexivity.
  - unfold quiet. simpl. constructor.
  - unfold one_per_query. simpl. constructor.
  - reflexivity.
  - exists (cleanup_of plain_provider). vm_compute. reflexivity.
  - exact H.
Defined.

(** * Hosts whose globals cannot always be read *)

(** ** Reads and sequencing *)

Lemma bind_Returned {A B} (m : M A) (k : A → M B) w a w1 :
  m w = Returned a w1 → (m ≫= k) w = k a w1.
Proof. intros H. unfold mbind, M_bind. by rewrite H. Qed.

Lemma bind_Thrown {A B} (m : M A) (k : A → M B) w e w1 :
  m w = Thrown e w1 → (m ≫= k) w = Thrown e w1.
Proof. intros H. unfold mbind, M_bind. by rewrite H. Qed.

Lemma bind_ext {A B} (m : M A) (k k' : A → M B) w :
  (∀ a w1, k a w1 = k' a w1) → (m ≫= k) w = (m ≫= k') w.
Proof. intros H. unfold mbind, M_bind. by destruct (m w). Qed.

Lemma read_window_ok a w :
  window_error a = None → read_window a w = Returned (window w) w.
Proof. intros H. unfold read_window. by rewrite H. Qed.

Lemma read_window_throws a e w :
  window_error a = Some e → read_window a w = Thrown e w.
Proof. intros H. unfold read_window. by rewrite H. Qed.

Lemma read_localStorage_ok a w :
  localStorage_error a = None →
  read_localStorage a w = Returned (localStorage w) w.
Proof. intros H. unfold read_localStorage. by rewrite H. Qed.

Lemma read_localStorage_throws a e w :
  localStorage_error a = Some e → read_localStorage a w = Thrown e w.
Proof. intros H. unfold read_localStorage. by rewrite H. Qed.

(** ** Where the reads succeed, the functions are those of a readable host *)

Lemma Host_window_matchMedia_ok a q w :
  window_error a = None →
  Host.window_matchMedia a q w = window_matchMedia q w.
Proof.
  intros H. unfold Host.window_matchMedia.
  by rewrite (bind_Returned _ _ _ _ _ (read_window_ok a w H)).
Qed.

Lemma Host_window_matches_ok a q w :
  window_error a = None → Host.window_matches a q w = window_matches q w.
Proof.
  intros H. unfold Host.window_matches, window_matches.
  rewrite (bind_Returned _ _ _ _ _ (read_window_ok a w H)).
  destruct (window w) as [win|]; [|done].
  destruct (matchMedia win); [|done].
  unfold mbind, M_bind. by rewrite Host_window_matchMedia_ok.
Qed.

Lemma Host_window_matches_throws a e q w :
  window_error a = Some e → Host.window_matches a q w = Thrown e w.
Proof.
  intros H. unfold Host.window_matches.
  by rewrite (bind_Thrown _ _ _ _ _ (read_window_throws a e w H)).
Qed.

Lemma Host_subscribe_ok a q h w :
  window_error a = None → Host.subscribe a q h w = subscribe q h w.
Proof.
  intros H. unfold Host.subscribe.
  by rewrite (bind_Returned _ _ _ _ _ (read_window_ok a w H)).
Qed.

Lemma Host_unsubscribe_ok a q h w :
  window_error a = None → Host.unsubscribe a q h w = unsubscribe q h w.
Proof.
  intros H. unfold Host.unsubscribe.
  by rewrite (bind_Returned _ _ _ _ _ (read_window_ok a w H)).
Qed.

(** The OS tier of the resolver. *)
Lemma Host_os_tier_ok a dflt w :
  window_error a = None →
  (d ← Host.window_matches a q_dark;
   if (d : bool) then mret colorSchemes.dark
   else l ← Host.window_matches a q_light;
        if (l : bool) then mret colorSchemes.light else mret dflt) w
  = (d ← window_matches q_dark;
     if (d : bool) then mret colorSchemes.dark
     else l ← window_matches q_light;
          if (l : bool) then mret colorSchemes.light else mret dflt) w.
Proof.
  intros Hw. unfold mbind, M_bind. rewrite Host_window_matches_ok by done.
  destruct (window_matches q_dark w) as [[] w1|]; [done| |done].
  by rewrite Host_window_matches_ok.
Qed.

Lemma Host_os_tier_throws a e dflt w :
  window_error a = Some e →
  (d ← Host.window_matches a q_dark;
   if (d : bool) then mret colorSchemes.dark
   else l ← Host.window_matches a q_light;
        if (l : bool) then mret colorSchemes.light else mret dflt) w
  = Thrown e w.
Proof.
  intros Hw.
  by rewrite (bind_Thrown _ _ _ _ _ (Host_window_matches_throws a e q_dark w Hw)).
Qed.

(** The persisted tier, when its read succeeds. *)
Lemma Host_persisted_tier a useLS key w :
  storage_reads_ok a useLS →
  (if useLS then
     (ls ← read_localStorage a;
      match ls with
      | Some store => mret (as_scheme (or_empty (getItem store key)))
      | None => mret None
      end)
   else mret None) w
  = Returned (persisted_choice useLS key w) w.
Proof.
  unfold storage_reads_ok. intros Hl. rewrite persisted_choice_as_scheme.
  destruct useLS; [|done].
  rewrite (bind_Returned _ _ _ _ _ (read_localStorage_ok a w Hl)).
  destruct (localStorage w) as [store|]; [|done]. simpl.
  unfold getItem. by destruct (store !! key).
Qed.

Lemma Host_getInitialColorScheme_ok a dflt useLS key w :
  storage_reads_ok a useLS → window_error a = None →
  Host.getInitialColorScheme a dflt useLS key w
  = getInitialColorScheme dflt useLS key w.
Proof.
  intros Hl Hw. unfold Host.getInitialColorScheme.
  rewrite (bind_Returned _ _ _ _ _ (Host_persisted_tier a useLS key w Hl)).
  unfold getInitialColorScheme. rewrite persisted_choice_as_scheme.
  destruct useLS; simpl.
  - destruct (localStorage w) as [store|]; simpl.
    + unfold getItem, or_empty.
      destruct (store !! key) as [s|]; simpl.
      * destruct (as_scheme s); [done|by apply Host_os_tier_ok].
      * by apply Host_os_tier_ok.
    + by apply Host_os_tier_ok.
  - by apply Host_os_tier_ok.
Qed.

Lemma getInitialColorScheme_result dflt useLS key w :
  result_of (getInitialColorScheme dflt useLS key w)
  = inr (resolveInitial_spec dflt useLS key w).
Proof.
  destruct (getInitialColorScheme_Returned dflt useLS key w) as (w'&H&_).
  by rewrite H.
Qed.

(** X4. On any host, [getInitialColorScheme] throws exactly when
    [useLocalStorage] is set and reading [localStorage] throws, or when
    there is no persisted choice and reading [window] throws, with the
    exception of that read. Otherwise it returns the persisted choice, else
    the OS choice, else the default value; the OS has no choice where
    [window] is falsy or has no [matchMedia], so there the result is the
    persisted choice or the default value. *)
Theorem resolver_on_any_host a dflt useLS key w :
  result_of (Host.getInitialColorScheme a dflt useLS key w)
  = resolver_result a dflt useLS key w.
Proof.
  unfold resolver_result.
  destruct (if useLS then localStorage_error a else None) as [e|] eqn:El.
  - destruct useLS; [|done]. unfold Host.getInitialColorScheme.
    erewrite bind_Thrown; [done|].
    by apply bind_Thrown, read_localStorage_throws.
  - destruct (window_error a) as [e|] eqn:Ew.
    + unfold Host.getInitialColorScheme.
      rewrite (bind_Returned _ _ _ _ _ (Host_persisted_tier a useLS key w El)).
      destruct (persisted_choice useLS key w); [done|].
      by rewrite (Host_os_tier_throws a e).
    + rewrite Host_getInitialColorScheme_ok, getInitialColorScheme_result
        by done.
      unfold resolveInitial_spec.
      destruct (persisted_choice useLS key w); [done|].
      by destruct (os_choice w).
Qed.

(** C1, evaluated where a read throws. With [useLocalStorage] set in a
    browser whose storage is blocked, the resolver throws the
    [SecurityError] of the read in its guard, where the precedence rule
    gives the OS choice (light, here); and on a host that is no browser it
    throws the [ReferenceError] of reading [window], where the rule gives
    the default value. *)
Theorem resolver_throws_where_a_read_throws :
  Host.getInitialColorScheme blocked_storage Dark true "k"
    (page browser_light None)
  = Thrown SecurityError (page browser_light None) ∧
  resolveInitial_spec Dark true "k" (page browser_light None) = Light ∧
  Host.getInitialColorScheme no_globals Dark false "k" bare
  = Thrown ReferenceError bare ∧
  resolveInitial_spec Dark false "k" bare = Dark.
Proof. split_and!; reflexivity. Qed.

(** ** The update path *)

Lemma Host_handleChangeColorScheme_ok a useLS key v w :
  storage_reads_ok a useLS →
  Host.handleChangeColorScheme a useLS key v w
  = Returned tt (handleChangeColorScheme useLS key v w).
Proof.
  unfold storage_reads_ok. intros Hl.
  unfold Host.handleChangeColorScheme, handleChangeColorScheme.
  erewrite bind_Returned by reflexivity.
  destruct useLS; [|done].
  rewrite (bind_Returned _ _ _ _ _ (read_localStorage_ok a _ Hl)). simpl.
  by destruct (localStorage w).
Qed.

(** X17. On a host where reading [localStorage] throws, the update path of
    a provider with [useLocalStorage] calls the state setter and then throws
    the exception of that read: the state cell takes the new value, nothing
    is written and no other call is made. Without [useLocalStorage] the
    global is not read and the update path returns. *)
Theorem set_on_unreadable_storage a e useLS key v w :
  localStorage_error a = Some e →
  Host.handleChangeColorScheme a useLS key v w
  = if useLS
    then Thrown e (log_call (SetColorScheme v) (set_colorScheme v w))
    else Returned tt (log_call (SetColorScheme v) (set_colorScheme v w)).
Proof.
  intros Hl. destruct useLS.
  - unfold Host.handleChangeColorScheme.
    erewrite bind_Returned by reflexivity.
    by apply bind_Thrown, read_localStorage_throws.
  - by rewrite Host_handleChangeColorScheme_ok.
Qed.

Lemma set_on_unreadable_storage_witness :
  result_of (Host.handleChangeColorScheme blocked_storage true "k" Dark
               (page browser_light None)) = inl SecurityError ∧
  colorScheme (world_of (Host.handleChangeColorScheme blocked_storage true "k"
                           Dark (page browser_light None))) = Dark.
Proof.
  rewrite (set_on_unreadable_storage blocked_storage SecurityError true "k"
             Dark (page browser_light None)).
  - split; reflexivity.
  - reflexivity.
Defined.

(** ** The effect and the mount *)

Lemma Host_effect_rest_ok a p w :
  window_error a = None →
  (win ← read_window a;
   match win with
   | None => mret None
   | Some _ =>
       u ← Host.window_matchMedia a q_umbrella;
       media ← read_media u;
       if decide (media ≠ "not all") then
         (Host.subscribe a q_dark (dark_handler p);;
          Host.subscribe a q_light (light_handler p);;
          Host.subscribe a q_noPreference (default_handler p);;
          mret (Some (cleanup_of p)))
       else mret None
   end) w
  = if truthy (window w) then
      (u ← window_matchMedia q_umbrella;
       media ← read_media u;
       if decide (media ≠ "not all") then
         subscribe q_dark (dark_handler p);;
         subscribe q_light (light_handler p);;
         subscribe q_noPreference (default_handler p);;
         mret (Some (cleanup_of p))
       else mret None) w
    else Returned None w.
Proof.
  intros Hw. rewrite (bind_Returned _ _ _ _ _ (read_window_ok a w Hw)).
  destruct (window w) as [win|]; [|done]. simpl.
  unfold mbind, M_bind. rewrite Host_window_matchMedia_ok by done.
  destruct (window_matchMedia q_umbrella w) as [u w0|]; [|done].
  destruct (read_media u w0) as [media w1|]; [|done].
  destruct (decide (media ≠ "not all")); [|done].
  rewrite Host_subscribe_ok by done.
  destruct (subscribe q_dark (dark_handler p) w1) as [[] w2|]; [|done].
  rewrite Host_subscribe_ok by done.
  destruct (subscribe q_light (light_handler p) w2) as [[] w3|]; [|done].
  by rewrite Host_subscribe_ok.
Qed.

(** The guard [useLocalStorage && localStorage] of the effect. *)
Lemma Host_effect_guard a useLS w :
  storage_reads_ok a useLS →
  (if useLS then (ls ← read_localStorage a; mret (truthy ls)) else mret false) w
  = Returned (useLS && truthy (localStorage w)) w.
Proof.
  unfold storage_reads_ok. intros Hl. destruct useLS; [|done].
  by rewrite (bind_Returned _ _ _ _ _ (read_localStorage_ok a w Hl)).
Qed.

Lemma Host_useEffect_body_ok a p w :
  storage_reads_ok a (useLocalStorage (config p)) → window_error a = None →
  Host.useEffect_body a p w = useEffect_body p w.
Proof.
  intros Hl Hw. unfold Host.useEffect_body, useEffect_body.
  destruct (listenWindowEvents (config p)); [|done]. simpl.
  rewrite (bind_Returned _ _ _ _ _ (Host_effect_guard a _ w Hl)).
  destruct (useLocalStorage (config p) && truthy (localStorage w)); [done|].
  simpl. by apply Host_effect_rest_ok.
Qed.

(** The outcome of the effect where one of its reads throws. *)
Lemma Host_useEffect_body_throws a p w :
  listenWindowEvents (config p) = true →
  match (if useLocalStorage (config p) then localStorage_error a else None) with
  | Some e => Host.useEffect_body a p w = Thrown e w
  | None =>
      useLocalStorage (config p) && truthy (localStorage w) = false →
      ∀ e, window_error a = Some e → Host.useEffect_body a p w = Thrown e w
  end.
Proof.
  intros Hl. unfold Host.useEffect_body. rewrite Hl.
  destruct (if useLocalStorage (config p) then localStorage_error a else None)
    as [e|] eqn:El.
  - destruct (useLocalStorage (config p)); [|done].
    erewrite bind_Thrown; [done|].
    by apply bind_Thrown, read_localStorage_throws.
  - intros Hp e Hw.
    rewrite (bind_Returned _ _ _ _ _ (Host_effect_guard a _ w El)), Hp.
    by apply bind_Thrown, read_window_throws.
Qed.

Lemma Host_mount_ok a p w :
  storage_reads_ok a (useLocalStorage (config p)) → window_error a = None →
  Host.mount a p w = mount p w.
Proof.
  intros Hl Hw. unfold Host.mount, mount, mbind, M_bind.
  rewrite Host_getInitialColorScheme_ok by done.
  destruct (getInitialColorScheme _ _ _ w) as [v w1|]; [|done].
  simpl. by apply Host_useEffect_body_ok.
Qed.

Lemma Host_run_cleanup_ok a c w :
  window_error a = None → Host.run_cleanup a c w = run_cleanup c w.
Proof.
  intros Hw. unfold Host.run_cleanup, run_cleanup, mbind, M_bind.
  rewrite Host_unsubscribe_ok by done.
  destruct (unsubscribe q_dark (un_dark c) w) as [[] w1|]; [|done].
  rewrite Host_unsubscribe_ok by done.
  destruct (unsubscribe q_light (un_light c) w1) as [[] w2|]; [|done].
  by rewrite Host_unsubscribe_ok.
Qed.

Lemma Host_run_handler_ok a h ev w :
  storage_reads_ok a (fst (handler_closure h)) →
  Host.run_handler a h ev w = Returned tt (run_handler h ev w).
Proof.
  intros Hl. destruct h; simpl in *; destruct (matches ev); try done;
    by apply Host_handleChangeColorScheme_ok.
Qed.

(** With a [localStorage] that can be read, events are delivered as on a
    readable host: no handler reads [window]. *)
Lemma Host_deliver_ok a q ev w :
  localStorage_error a = None → Host.deliver a q ev w = deliver q ev w.
Proof.
  intros Hl. unfold Host.deliver, deliver.
  assert (Hd : ∀ o w', Host.dispatch a o ev w' = dispatch o ev w').
  { intros o w'. unfold Host.dispatch, dispatch. revert w'.
    induction (mql_listeners o) as [|h l IH]; intros w'; [done|]. simpl.
    rewrite Host_run_handler_ok; [apply IH|].
    unfold storage_reads_ok. rewrite Hl. by destruct (handler_closure h).1. }
  generalize (mqls w). intros l. revert w.
  induction l as [|o l IH]; intros w; [done|]. simpl.
  destruct (decide (mql_query o = q)); [rewrite Hd|]; apply IH.
Qed.

(** C3, evaluated in a browser whose storage is blocked. The provider
    listens to window events, persistence is not available and the host
    understands the umbrella query, so the three conditions hold; yet the
    effect throws the [SecurityError] of reading [localStorage] in its
    guard, and so does the mount: the watcher does not become active. *)
Theorem watcher_throws_on_blocked_storage :
  let p := persisting_provider in
  let w := page browser_light None in
  listenWindowEvents (config p) = true ∧
  ¬ (useLocalStorage (config p) = true ∧ is_Some (localStorage w)) ∧
  os_query_supported w ∧
  Host.useEffect_body blocked_storage p w = Thrown SecurityError w ∧
  Host.mount blocked_storage p w = Thrown SecurityError w ∧
  ¬ watcher_active (Host.useEffect_body blocked_storage p w).
Proof.
  split_and!; try reflexivity.
  - intros [_ [s Hs]]. discriminate.
  - exists browser_light. split; [reflexivity|discriminate].
  - intros [c Hc]. discriminate.
Qed.

Lemma persisted_choice_Some useLS key w v :
  persisted_choice useLS key w = Some v →
  useLS = true ∧ truthy (localStorage w) = true.
Proof.
  unfold persisted_choice. destruct useLS; [|done].
  by destruct (localStorage w).
Qed.

(** With a persisted choice the mount reads no [window]. *)
Lemma Host_mount_persisted a p w v :
  storage_reads_ok a (useLocalStorage (config p)) →
  persisted_choice (useLocalStorage (config p)) (localStorageKey (config p)) w
  = Some v →
  Host.mount a p w = Returned None (set_colorScheme v w).
Proof.
  intros Hl Hp. destruct (persisted_choice_Some _ _ _ _ Hp) as [Hu Ht].
  unfold Host.mount, Host.getInitialColorScheme.
  erewrite bind_Returned; last first.
  { erewrite bind_Returned; [|by apply Host_persisted_tier].
    rewrite Hp. reflexivity. }
  erewrite bind_Returned by reflexivity.
  unfold Host.useEffect_body.
  destruct (listenWindowEvents (config p)); [|done].
  rewrite (bind_Returned _ _ _ _ _ (Host_effect_guard a _ _ Hl)).
  simpl. by rewrite Hu, Ht.
Qed.

(** X3. On any host, mounting throws exactly in three cases:
    [useLocalStorage] is set and reading [localStorage] throws; there is no
    persisted choice and reading [window] throws; or the provider listens to
    window events, persistence is not in effect, and [window] is there but
    has no [matchMedia], which the effect calls without the guard the
    resolver has. In every other case the mount returns. *)
Theorem mount_throws_on_any_host a p w :
  value_of (Host.mount a p w) = None ↔
  (useLocalStorage (config p) = true ∧ is_Some (localStorage_error a)) ∨
  (persisted_choice (useLocalStorage (config p))
     (localStorageKey (config p)) w = None ∧
   is_Some (window_error a)) ∨
  (listenWindowEvents (config p) = true ∧
   useLocalStorage (config p) && truthy (localStorage w) = false ∧
   truthy (window w) = true ∧
   the_matchMedia w = None).
Proof.
  destruct (if useLocalStorage (config p) then localStorage_error a else None)
    as [e|] eqn:El.
  { assert (useLocalStorage (config p) = true ∧ localStorage_error a = Some e)
      as [Hu He] by (by destruct (useLocalStorage (config p))).
    split; [intros _; left; split; [done|by rewrite He]|intros _].
    unfold Host.mount, Host.getInitialColorScheme. rewrite Hu.
    erewrite bind_Thrown; [done|].
    erewrite bind_Thrown; [done|].
    by apply bind_Thrown, read_localStorage_throws. }
  assert (Hno : ¬ (useLocalStorage (config p) = true ∧
                   is_Some (localStorage_error a))).
  { intros [Hu [e He]]. rewrite Hu, He in El. done. }
  destruct (window_error a) as [e|] eqn:Ew.
  - destruct (persisted_choice (useLocalStorage (config p))
                (localStorageKey (config p)) w) as [v|] eqn:Hp.
    + rewrite (Host_mount_persisted a p w v El Hp). simpl.
      destruct (persisted_choice_Some _ _ _ _ Hp) as [Hu Ht].
      split; [done|]. intros [?|[[? _]|(_&Hf&_)]]; [done|done|].
      by rewrite Hu, Ht in Hf.
    + split; [intros _; right; left; split; [done|by eexists]|intros _].
      unfold Host.mount, Host.getInitialColorScheme.
      erewrite bind_Thrown; [done|].
      erewrite bind_Returned; [|by apply Host_persisted_tier].
      rewrite Hp. by apply Host_os_tier_throws.
  - rewrite Host_mount_ok, mount_throws_readable by done.
    split; [by auto|]. intros [?|[[_ [? ?]]|?]]; done.
Qed.

(** X18. On any host, the watcher becomes active exactly when the provider
    listens to window events, its guard finds no storage to prefer (either
    [useLocalStorage] is not set, so [localStorage] is not read, or it is
    read without an exception and is falsy), reading [window] does not
    throw, and the host understands the umbrella query. Where one of these
    reads throws the effect throws and the watcher stays inactive. *)
Theorem watcher_on_any_host a p w :
  watcher_active (Host.useEffect_body a p w) ↔
  listenWindowEvents (config p) = true ∧
  (useLocalStorage (config p) = false ∨
   (localStorage_error a = None ∧ localStorage w = None)) ∧
  window_error a = None ∧
  os_query_supported w.
Proof.
  destruct (listenWindowEvents (config p)) eqn:Hl.
  2:{ unfold Host.useEffect_body. rewrite Hl.
      split; [by intros [c ?]|by intros (?&_)]. }
  pose proof (Host_useEffect_body_throws a p w Hl) as Ht.
  destruct (if useLocalStorage (config p) then localStorage_error a else None)
    as [e|] eqn:El.
  { rewrite Ht. split; [by intros [c ?]|].
    destruct (useLocalStorage (config p)); [|done].
    intros (_&[?|[He _]]&_); [done|]. by rewrite He in El. }
  assert (Hg : (useLocalStorage (config p) = false ∨
                (localStorage_error a = None ∧ localStorage w = None))
               ↔ useLocalStorage (config p) && truthy (localStorage w) = false).
  { destruct (useLocalStorage (config p)); simpl in *.
    - destruct (localStorage w); simpl; split; try done.
      + by intros [?|[_ ?]].
      + intros _. by right.
    - split; [done|]. intros _. by left. }
  rewrite Hg.
  destruct (window_error a) as [e|] eqn:Ew.
  - split; [|by intros (_&_&?&_)]. intros Ha. exfalso.
    destruct (useLocalStorage (config p) && truthy (localStorage w)) eqn:Hp.
    + unfold Host.useEffect_body in Ha. rewrite Hl in Ha.
      rewrite (bind_Returned _ _ _ _ _ (Host_effect_guard a _ w El)), Hp in Ha.
      by destruct Ha as [c ?].
    + rewrite (Ht eq_refl e eq_refl) in Ha. by destruct Ha as [c ?].
  - rewrite Host_useEffect_body_ok by done. split.
    + intros Ha. destruct (useEffect_body_active_inv p w Ha) as (_&Hp&mm&?&?).
      split_and!; [done..|]. by exists mm.
    + intros (_&Hp&_&mm&Hmm&Hm).
      destruct (useEffect_body_active p w mm Hl Hp Hmm Hm) as (w'&E&_).
      rewrite E. by eexists.
Qed.

(** ** A property holding [undefined] *)


